(** * chess-tools: the game analysis pipeline of [analyse_pgn_files.py]

    A shallow embedding of the analysis script and the properties its
    specification states about it.

    Conventions of the embedding:
    - a Python [int] is a [Z]; a Python [str] is a [string] whose characters
      stand for code points below 256;
    - a Python [float] is a real number ([R]): the accuracy formulas are
      modelled in exact real arithmetic; where rounding decides a property,
      module [Binary64] has the same formulas in IEEE binary64 arithmetic,
      with [math.exp] as a parameter;
    - a Python [dict] with string keys is a [gmap string _], a [set] of
      strings a [gset string];
    - code that can raise runs in a small state-and-exception monad whose
      state is the trace of events on the external collaborators (engine
      process, opening book, diagnostic stream);
    - the chess library ([chess], [chess.engine], [chess.pgn],
      [chess.polyglot]) is not part of the repository: its score classes are
      modelled after the library's documented behaviour, the engine, the book
      and the record parser are oracles collected in a [World];
    - the exporter [chesscom_pgn_export.py] is module [Exporter]: the HTTP
      API and the clock are oracles collected in a [Remote], the output
      directory is a [gmap] from file name to content. *)

From Stdlib Require Import ZArith Lia Reals Lra String Ascii List.
From Stdlib Require Import Floats.PrimFloat Uint63.
From stdpp Require Import base gmap sets list strings pretty sorting.
Import ListNotations.

Set Warnings "-inexact-float".

Open Scope string_scope.
Open Scope list_scope.
Open Scope Z_scope.

(** ** Python built-ins used by the script *)

Module Py.

(** Exceptions (all of them subclasses of [Exception]). *)
Inductive Exn : Type :=
| ValueError
| IndexError
| KeyError
| TypeError
| StopIteration
| OtherError (what : string).

(** The outcome of an expression that may raise. *)
Inductive Res (A : Type) : Type :=
| Ok (a : A)
| Raise (e : Exn).
Arguments Ok {A} a.
Arguments Raise {A} e.

Definition tab : ascii := ascii_of_nat 9.
Definition lf : ascii := ascii_of_nat 10.
Definition cr : ascii := ascii_of_nat 13.

(** [str.isspace] on one character, for code points below 256. *)
Definition isspace (c : ascii) : bool :=
  let n := nat_of_ascii c in
  ((9 <=? n) && (n <=? 13) || (28 <=? n) && (n <=? 32)
   || (n =? 133) || (n =? 160))%nat.

Definition is_empty (s : string) : bool :=
  match s with EmptyString => true | String _ _ => false end.

Fixpoint lstrip (s : string) : string :=
  match s with
  | EmptyString => EmptyString
  | String c r => if isspace c then lstrip r else s
  end.

Fixpoint rstrip (s : string) : string :=
  match s with
  | EmptyString => EmptyString
  | String c r =>
      let r' := rstrip r in
      if is_empty r' && isspace c then EmptyString else String c r'
  end.

(** [s.strip()] *)
Definition strip (s : string) : string := rstrip (lstrip s).

(** [s.split(sep)[0]]: the text before the first separator. *)
Fixpoint split_first (sep : ascii) (s : string) : string :=
  match s with
  | EmptyString => EmptyString
  | String c r => if Ascii.eqb c sep then EmptyString else String c (split_first sep r)
  end.

(** [sep in s] for a one-character [sep]. *)
Fixpoint contains (sep : ascii) (s : string) : bool :=
  match s with
  | EmptyString => false
  | String c r => Ascii.eqb c sep || contains sep r
  end.

Definition digit_val (c : ascii) : option Z :=
  let n := nat_of_ascii c in
  if ((48 <=? n) && (n <=? 57))%nat then Some (Z.of_nat n - 48) else None.

(** Decimal digits with single underscores between digits. *)
Fixpoint parse_digits (s : string) (acc : Z) (after_digit : bool) : option Z :=
  match s with
  | EmptyString => if after_digit then Some acc else None
  | String c r =>
      if Ascii.eqb c "_"
      then (if after_digit then parse_digits r acc false else None)
      else match digit_val c with
           | Some d => parse_digits r (10 * acc + d) true
           | None => None
           end
  end.

(** [int(s)] in base ten: surrounding whitespace, an optional sign, digits.
    [Raise ValueError] is Python's [ValueError].  (The interpreter's limit on
    the number of digits, which is a [ValueError] too, is left out.) *)
Definition int (s : string) : Res Z :=
  let parsed :=
    match strip s with
    | String "+" r => parse_digits r 0 false
    | String "-" r => Z.opp <$> parse_digits r 0 false
    | r => parse_digits r 0 false
    end in
  match parsed with
  | Some z => Ok z
  | None => Raise ValueError
  end.

(** [d.get(key, default)] *)
Definition get (d : gmap string string) (key default : string) : string :=
  match d !! key with
  | Some v => v
  | None => default
  end.

End Py.

(** ** AccuracyCalculator: the numeric transforms *)

Module Accuracy.
Local Open Scope R_scope.

Definition centipawns_to_win_percent (centipawns : Z) : R :=
  50 + 50 * (2 / (1 + exp (- 0.00368208 * IZR centipawns)) - 1).

Definition calculate_move_accuracy (win_percent_before win_percent_after : R) : R :=
  let win_percent_loss := win_percent_before - win_percent_after in
  let accuracy := 103.1668 * exp (- 0.04354 * win_percent_loss) - 3.1669 in
  Rmax 0 (Rmin 100 accuracy).

Definition pair_accuracy (p : Z * Z) : R :=
  let '(eval_before, eval_after) := p in
  let win_before := centipawns_to_win_percent eval_before in
  let win_after := centipawns_to_win_percent eval_after in
  calculate_move_accuracy win_before win_after.

Definition Rsum (l : list R) : R := fold_right Rplus 0 l.

Definition calculate_accuracy (eval_pairs : list (Z * Z)) : R :=
  match eval_pairs with
  | [] => 0
  | _ =>
      let move_accuracies := map pair_accuracy eval_pairs in
      Rsum move_accuracies / INR (length move_accuracies)
  end.

(** [round(x, 1)]: to the nearest tenth, ties to the even neighbour. *)
Definition floor (x : R) : Z := (up x - 1)%Z.

Definition round_half_even (x : R) : Z :=
  let f := floor x in
  let d := x - IZR f in
  if Rlt_dec d (1 / 2) then f
  else if Rlt_dec (1 / 2) d then (f + 1)%Z
  else if Z.even f then f else (f + 1)%Z.

Definition round1 (x : R) : R := IZR (round_half_even (x * 10)) / 10.

End Accuracy.

(** ** The two curves in binary64 arithmetic *)

Module Binary64.

(** [float(n)] for an integer below [2^63] in absolute value. *)
Definition float_of_int (z : Z) : float :=
  match z with
  | Z0 => 0%float
  | Zpos _ => of_uint63 (Uint63.of_Z z)
  | Zneg p => (- of_uint63 (Uint63.of_Z (Zpos p)))%float
  end.

(** [min(a, b)] and [max(a, b)]: the first argument wins a tie. *)
Definition py_min (a b : float) : float := if (b <? a)%float then b else a.
Definition py_max (a b : float) : float := if (a <? b)%float then b else a.

Definition centipawns_to_win_percent (exp : float -> float) (centipawns : Z) : float :=
  (50 + 50 * (2 / (1 + exp (-0.00368208 * float_of_int centipawns)) - 1))%float.

Definition calculate_move_accuracy (exp : float -> float)
  (win_percent_before win_percent_after : float) : float :=
  let win_percent_loss := (win_percent_before - win_percent_after)%float in
  let accuracy := (103.1668 * exp (-0.04354 * win_percent_loss) - 3.1669)%float in
  py_max 0 (py_min 100 accuracy).

End Binary64.

(** ** Scores of the engine library and their normalisation *)

Module Engine.

(** [chess.engine.Score]: [Cp], [Mate] and the [MateGiven] singleton. *)
Inductive Score : Type :=
| Cp (cp : Z)
| Mate (moves : Z)
| MateGiven.

(** [Score.mate()] *)
Definition mate (s : Score) : option Z :=
  match s with
  | Cp _ => None
  | Mate n => Some n
  | MateGiven => Some 0
  end.

(** [Score.score(mate_score=...)]; [None] is Python's [None]. *)
Definition score (s : Score) (mate_score : option Z) : option Z :=
  match s with
  | Cp c => Some c
  | Mate n =>
      match mate_score with
      | None => None
      | Some m => if 0 <? n then Some (m - n) else Some (- m - n)
      end
  | MateGiven => mate_score
  end.

(** [-score] *)
Definition neg (s : Score) : Score :=
  match s with
  | Cp c => Cp (- c)
  | Mate n => if n =? 0 then MateGiven else Mate (- n)
  | MateGiven => Mate 0
  end.

Inductive Color : Type := White | Black.

(** [chess.engine.PovScore] *)
Record PovScore : Type := { relative : Score; turn : Color }.

(** [PovScore.white()] *)
Definition white (p : PovScore) : Score :=
  match turn p with
  | White => relative p
  | Black => neg (relative p)
  end.

Definition convert_mate_to_centipawns (score_ : Score) (mate_distance : option Z)
  : option Z :=
  match mate_distance with
  | None => score score_ None
  | Some mate_distance =>
      let base_mate_value := 10000 in
      let distance_penalty := Z.abs mate_distance * 50 in
      let mate_value := base_mate_value - distance_penalty in
      Some (if 0 <? mate_distance then mate_value else - mate_value)
  end.

(** [get_eval_centipawns(info)], from the [info['score']] entry. *)
Definition get_eval_centipawns (info_score : PovScore) : option Z :=
  let score_ := white info_score in
  let mate_ := mate score_ in
  match mate_ with
  | Some _ => convert_mate_to_centipawns score_ mate_
  | None => score score_ None
  end.

(** [info['score'].white().score(mate_score=10000)], the evaluation taken
    after the move. *)
Definition eval_after_centipawns (info_score : PovScore) : option Z :=
  score (white info_score) (Some 10000).

End Engine.

(** ** MoveEvaluator: classification of a centipawn loss *)

Definition classify_move (eval_loss : Z) : string :=
  if eval_loss <=? 10 then "best"
  else if eval_loss <=? 25 then "good"
  else if eval_loss <=? 50 then "inaccuracy"
  else if eval_loss <=? 100 then "mistake"
  else "blunder".

(** ** GameAnalysisPipeline: one game, end to end *)

Module Pipeline.
Import Py Engine.

(** A move in the library's text form; a board is the starting position of
    the game together with the stack of moves pushed on it. *)
Definition Move : Type := string.
Definition Board : Type := list Move.

(** What [chess.pgn.read_game] returns: the headers and the main line. *)
Record Game : Type := {
  headers : gmap string string;
  mainline_moves : list Move
}.

Record GameStats : Type := {
  filename : string;
  white_player : string;
  black_player : string;
  white_elo : Z;
  black_elo : Z;
  time_control : string;
  opening : string;
  result : Z;
  white_accuracy : R;
  white_best_moves : Z;
  white_good_moves : Z;
  white_inaccuracies : Z;
  white_mistakes : Z;
  white_blunders : Z;
  white_book_moves : Z;
  white_total_moves : Z;
  black_accuracy : R;
  black_best_moves : Z;
  black_good_moves : Z;
  black_inaccuracies : Z;
  black_mistakes : Z;
  black_blunders : Z;
  black_book_moves : Z;
  black_total_moves : Z
}.

(** The record returned when there is no game or the analysis failed. *)
Definition placeholder (name : string) : GameStats :=
  Build_GameStats name "" "" 0 0 "unknown" "unknown" 0
    0%R 0 0 0 0 0 0 0
    0%R 0 0 0 0 0 0 0.

(** Observable events on the collaborators of one analysis. *)
Inductive Event : Type :=
| EngineStarted
| EngineAnalyse (board : Board) (depth : Z)
| EngineQuit
| BookOpened
| BookClosed
| Diagnostic (name : string) (e : Exn).

(** The collaborators, as oracles.  The engine answers its [n]-th request
    for a position; every call may raise. *)
Record World : Type := {
  read_game : Res (option Game);
  path_exists : string -> bool;
  open_reader : string -> Res unit;
  book_truthy : bool;
  find_all : Board -> list Move * option Exn;
  popen_uci : string -> Res unit;
  analyse : nat -> Board -> Z -> Res (option PovScore);
  quit : Res unit;
  close : Res unit
}.

(** State (the trace so far) and exceptions. *)
Definition M (A : Type) : Type := list Event -> Res A * list Event.

Definition ret {A} (a : A) : M A := fun tr => (Ok a, tr).

Definition raise {A} (e : Exn) : M A := fun tr => (Raise e, tr).

Definition bind {A B} (c : M A) (k : A -> M B) : M B :=
  fun tr =>
    match c tr with
    | (Ok a, tr') => k a tr'
    | (Raise e, tr') => (Raise e, tr')
    end.

Definition lift {A} (r : Res A) : M A := fun tr => (r, tr).

Definition emit (ev : Event) : M unit := fun tr => (Ok tt, tr ++ [ev]).

Notation "'do' x <- c ; k" := (bind c (fun x => k))
  (at level 10, x name, c at level 100, k at level 200).
Notation "'do_' c ; k" := (bind c (fun _ => k))
  (at level 10, c at level 100, k at level 200).

(** [try: c  except handled: fallback] on a pure computation. *)
Definition try_except {A} (c : Res A) (handled : Exn -> bool) (fallback : A) : Res A :=
  match c with
  | Ok a => Ok a
  | Raise e => if handled e then Ok fallback else Raise e
  end.

Definition is_ValueError (e : Exn) : bool :=
  match e with ValueError => true | _ => false end.

Definition is_IndexError (e : Exn) : bool :=
  match e with IndexError => true | _ => false end.

Definition res_bind {A B} (c : Res A) (k : A -> Res B) : Res B :=
  match c with
  | Ok a => k a
  | Raise e => Raise e
  end.

(** *** Setup: the headers *)

Definition parse_result (result_str : string) : Z :=
  if String.eqb result_str "1-0" then 1
  else if String.eqb result_str "0-1" then -1
  else if String.eqb result_str "1/2-1/2" then 0
  else 0.

(** Both ratings are converted inside one [try] block. *)
Definition parse_elos (white_elo black_elo : string) : Res (Z * Z) :=
  try_except
    (res_bind (int white_elo) (fun w =>
     res_bind (int black_elo) (fun b =>
     Ok (w, b))))
    is_ValueError
    (0, 0).

Definition parse_time_control (tc : string) : Res string :=
  if negb (is_empty tc) && negb (String.eqb tc "-") then
    try_except
      (if contains "/" tc then Ok "daily"
       else
         res_bind (int (split_first "+" tc)) (fun base_time =>
         if base_time <? 180 then Ok "bullet"
         else if base_time <=? 300 then Ok "blitz"
         else if base_time <=? 3600 then Ok "rapid"
         else Ok "classical"))
      (fun e => is_ValueError e || is_IndexError e)
      "unknown"
  else Ok "unknown".

(** *** The engine session and the book reader *)

Definition count_analyse (tr : list Event) : nat :=
  length (List.filter (fun ev => match ev with EngineAnalyse _ _ => true | _ => false end) tr).

Definition engine_start (w : World) (stockfish_path : string) : M unit :=
  do_ lift (popen_uci w stockfish_path);
  emit EngineStarted.

Definition engine_analyse (w : World) (board : Board) (depth : Z) : M (option PovScore) :=
  fun tr => (analyse w (count_analyse tr) board depth, tr ++ [EngineAnalyse board depth]).

Definition engine_quit (w : World) : M unit :=
  do_ emit EngineQuit;
  lift (quit w).

Definition book_open (w : World) (book_path : string) : M unit :=
  do_ lift (open_reader w book_path);
  emit BookOpened.

Definition book_close (w : World) : M unit :=
  do_ emit BookClosed;
  lift (close w).

(** [info['score']] *)
Definition info_score (info : option PovScore) : Res PovScore :=
  match info with
  | Some s => Ok s
  | None => Raise KeyError
  end.

(** An arithmetic operand that must not be [None]. *)
Definition operand (v : option Z) : Res Z :=
  match v with
  | Some z => Ok z
  | None => Raise TypeError
  end.

(** The book check of one move:
    [for entry in book_reader.find_all(board): if entry.move == move: ...]
    inside [try ... except IndexError: pass]. *)
Definition book_has_move (w : World) (board : Board) (move : Move) : Res bool :=
  let '(entries, ending) := find_all w board in
  if existsb (String.eqb move) entries then Ok true
  else match ending with
       | None => Ok false
       | Some e => if is_IndexError e then Ok false else Raise e
       end.

(** [d[key] += 1] *)
Definition dict_incr (d : gmap string Z) (key : string) : Res (gmap string Z) :=
  match d !! key with
  | Some n => Ok (<[key := n + 1]> d)
  | None => Raise KeyError
  end.

(** [d[key]] *)
Definition dict_get (d : gmap string Z) (key : string) : Res Z :=
  match d !! key with
  | Some n => Ok n
  | None => Raise KeyError
  end.

Definition new_classifications : gmap string Z :=
  <["best" := 0]> (<["good" := 0]> (<["inaccuracy" := 0]>
  (<["mistake" := 0]> (<["blunder" := 0]> ∅)))).

(** *** MoveLoop *)

(** The variables the loop updates. *)
Record Acc : Type := {
  white_classifications : gmap string Z;
  black_classifications : gmap string Z;
  white_eval_pairs : list (Z * Z);
  black_eval_pairs : list (Z * Z);
  acc_white_book_moves : Z;
  acc_black_book_moves : Z;
  board : Board;
  move_number : Z
}.

Definition initial_acc : Acc :=
  Build_Acc new_classifications new_classifications [] [] 0 0 [] 0.

(** The loss of a move from the mover's side, never negative. *)
Definition eval_loss_of (is_white_move : bool) (eval_before eval_after : Z) : Z :=
  let eval_loss :=
    if is_white_move then eval_before - eval_after else eval_after - eval_before in
  Z.max 0 eval_loss.

(** The bookkeeping for a move that was sent to the engine. *)
Definition record_move (st : Acc) (is_white_move : bool) (eval_before eval_after : Z)
  (board' : Board) (move_number' : Z) : Res Acc :=
  let eval_loss := eval_loss_of is_white_move eval_before eval_after in
  let classification := classify_move eval_loss in
  if is_white_move then
    res_bind (dict_incr (white_classifications st) classification) (fun wc =>
    Ok (Build_Acc wc (black_classifications st)
          (white_eval_pairs st ++ [(eval_before, eval_after)]) (black_eval_pairs st)
          (acc_white_book_moves st) (acc_black_book_moves st) board' move_number'))
  else
    res_bind (dict_incr (black_classifications st) classification) (fun bc =>
    Ok (Build_Acc (white_classifications st) bc
          (white_eval_pairs st) (black_eval_pairs st ++ [(- eval_before, - eval_after)])
          (acc_white_book_moves st) (acc_black_book_moves st) board' move_number')).

(** The bookkeeping for a book move. *)
Definition record_book_move (st : Acc) (is_white_move : bool)
  (board' : Board) (move_number' : Z) : Acc :=
  if is_white_move then
    Build_Acc (white_classifications st) (black_classifications st)
      (white_eval_pairs st) (black_eval_pairs st)
      (acc_white_book_moves st + 1) (acc_black_book_moves st) board' move_number'
  else
    Build_Acc (white_classifications st) (black_classifications st)
      (white_eval_pairs st) (black_eval_pairs st)
      (acc_white_book_moves st) (acc_black_book_moves st + 1) board' move_number'.

(** One iteration of [for move in game.mainline_moves()]. *)
Definition analyse_move (w : World) (depth : Z) (book_reader : bool)
  (st : Acc) (move : Move) : M Acc :=
  let move_number' := move_number st + 1 in
  let is_white_move := move_number' mod 2 =? 1 in
  do in_book <- lift (if book_reader && book_truthy w
                      then book_has_move w (board st) move
                      else Ok false);
  if in_book : bool then
    ret (record_book_move st is_white_move (board st ++ [move]) move_number')
  else
    do info_before <- engine_analyse w (board st) depth;
    do score_before <- lift (info_score info_before);
    let eval_before := get_eval_centipawns score_before in
    let board' := board st ++ [move] in
    do info_after <- engine_analyse w board' depth;
    do score_after <- lift (info_score info_after);
    let eval_after := eval_after_centipawns score_after in
    do eval_before <- lift (operand eval_before);
    do eval_after <- lift (operand eval_after);
    lift (record_move st is_white_move eval_before eval_after board' move_number').

Fixpoint move_loop (w : World) (depth : Z) (book_reader : bool)
  (moves : list Move) (st : Acc) : M Acc :=
  match moves with
  | [] => ret st
  | move :: rest =>
      do st' <- analyse_move w depth book_reader st move;
      move_loop w depth book_reader rest st'
  end.

(** *** Teardown and Emit *)

Definition len {A} (l : list A) : Z := Z.of_nat (length l).

Definition emit_stats (name white_player black_player : string) (white_elo black_elo : Z)
  (time_control opening : string) (result : Z) (st : Acc) : Res GameStats :=
  let white_accuracy := Accuracy.calculate_accuracy (white_eval_pairs st) in
  let black_accuracy := Accuracy.calculate_accuracy (black_eval_pairs st) in
  res_bind (dict_get (white_classifications st) "best") (fun w_best =>
  res_bind (dict_get (white_classifications st) "good") (fun w_good =>
  res_bind (dict_get (white_classifications st) "inaccuracy") (fun w_inacc =>
  res_bind (dict_get (white_classifications st) "mistake") (fun w_mist =>
  res_bind (dict_get (white_classifications st) "blunder") (fun w_blun =>
  res_bind (dict_get (black_classifications st) "best") (fun b_best =>
  res_bind (dict_get (black_classifications st) "good") (fun b_good =>
  res_bind (dict_get (black_classifications st) "inaccuracy") (fun b_inacc =>
  res_bind (dict_get (black_classifications st) "mistake") (fun b_mist =>
  res_bind (dict_get (black_classifications st) "blunder") (fun b_blun =>
  Ok (Build_GameStats name white_player black_player white_elo black_elo
        time_control opening result
        (Accuracy.round1 white_accuracy)
        w_best w_good w_inacc w_mist w_blun
        (acc_white_book_moves st)
        (len (white_eval_pairs st) + acc_white_book_moves st)
        (Accuracy.round1 black_accuracy)
        b_best b_good b_inacc b_mist b_blun
        (acc_black_book_moves st)
        (len (black_eval_pairs st) + acc_black_book_moves st)))))))))))).

(** The body of the [try] block of [analyse_game], after a game was read. *)
Definition analyse_loaded_game (w : World) (name stockfish_path : string) (depth : Z)
  (book_path : option string) (game : Game) : M GameStats :=
  let white_player := get (headers game) "White" "unknown" in
  let black_player := get (headers game) "Black" "unknown" in
  let result := parse_result (get (headers game) "Result" "*") in
  let opening := get (headers game) "ECO" "unknown" in
  let white_elo := get (headers game) "WhiteElo" "0" in
  let black_elo := get (headers game) "BlackElo" "0" in
  do elos <- lift (parse_elos white_elo black_elo);
  let tc := get (headers game) "TimeControl" "" in
  do time_control <- lift (parse_time_control tc);
  do book_reader <-
    match book_path with
    | Some p =>
        if negb (is_empty p) && path_exists w p
        then (do_ book_open w p; ret true)
        else ret false
    | None => ret false
    end;
  do_ engine_start w stockfish_path;
  do st <- move_loop w depth book_reader (mainline_moves game) initial_acc;
  do_ engine_quit w;
  do_ (if book_reader && book_truthy w then book_close w else ret tt);
  lift (emit_stats name white_player black_player (fst elos) (snd elos)
          time_control opening result st).

Definition analyse_game_body (w : World) (name stockfish_path : string) (depth : Z)
  (book_path : option string) : M GameStats :=
  do game <- lift (read_game w);
  match game with
  | None => ret (placeholder name)
  | Some game => analyse_loaded_game w name stockfish_path depth book_path game
  end.

(** [analyse_game]: the [try] block and its [except Exception] handler.
    The result is the record returned and the trace of events. *)
Definition analyse_game (w : World) (name stockfish_path : string) (depth : Z)
  (book_path : option string) : GameStats * list Event :=
  match analyse_game_body w name stockfish_path depth book_path [] with
  | (Ok stats, tr) => (stats, tr)
  | (Raise e, tr) => (placeholder name, tr ++ [Diagnostic name e])
  end.

End Pipeline.

(** ** ParallelOrchestrator: the resumable batch *)

Module Orchestrator.
Import Py Pipeline.

(** Text-mode reading with universal newlines: [\r\n] and a lone [\r] end
    a line like [\n] does.  [readlines s cur after_cr] are the lines of [s]
    when the characters [cur] (in reverse) of the current line were read
    already and [after_cr] tells that the last character read was [\r];
    every line keeps its terminator, translated to [\n]. *)
Fixpoint readlines (s : string) (cur : list ascii) (after_cr : bool) : list string :=
  match s with
  | EmptyString =>
      match cur with
      | [] => []
      | _ => [string_of_list_ascii (rev cur)]
      end
  | String c r =>
      if Ascii.eqb c lf then
        if after_cr then readlines r cur false
        else string_of_list_ascii (rev (lf :: cur)) :: readlines r [] false
      else if Ascii.eqb c cr then
        string_of_list_ascii (rev (lf :: cur)) :: readlines r [] true
      else readlines r (c :: cur) false
  end.

(** The body of [for line in f] in [load_processed_files]. *)
Definition add_line (processed : gset string) (line : string) : gset string :=
  let filename := strip (split_first tab line) in
  if is_empty filename then processed else {[ filename ]} ∪ processed.

(** [load_processed_files]; the output file is [None] when it does not
    exist.  On an empty file [next(f)] raises [StopIteration], which the
    handler turns into a warning, and the empty set is returned. *)
Definition load_processed_files (output_file : option string) : gset string :=
  match output_file with
  | None => ∅
  | Some content =>
      match readlines content [] false with
      | [] => ∅
      | _header :: lines => fold_left add_line lines ∅
      end
  end.

Definition join_tab (cols : list string) : string :=
  String.concat (String tab EmptyString) cols.

Definition newline : string := String lf EmptyString.

Definition header_row : string :=
  join_tab
    [ "filename"; "white_player"; "black_player"; "white_elo"; "black_elo";
      "time_control"; "opening"; "result";
      "white_accuracy"; "white_best_moves"; "white_good_moves"; "white_inaccuracies";
      "white_mistakes"; "white_blunders"; "white_book_moves"; "white_total_moves";
      "black_accuracy"; "black_best_moves"; "black_good_moves"; "black_inaccuracies";
      "black_mistakes"; "black_blunders"; "black_book_moves"; "black_total_moves" ]
  +:+ newline.

(** What the batch takes from its environment: the text of a float, the
    collaborators of the analysis of each file, whether a path exists, and
    the order in which the pool hands back the results. *)
Record Runtime : Type := {
  repr_float : R -> string;
  world_of : string -> World;
  exists_path : string -> bool;
  imap_unordered : list string -> list string
}.

(** The line written for one result. *)
Definition format_row (rt : Runtime) (stats : GameStats) : string :=
  join_tab
    [ filename stats; white_player stats; black_player stats;
      pretty (white_elo stats); pretty (black_elo stats);
      time_control stats; opening stats; pretty (result stats);
      repr_float rt (white_accuracy stats);
      pretty (white_best_moves stats); pretty (white_good_moves stats);
      pretty (white_inaccuracies stats); pretty (white_mistakes stats);
      pretty (white_blunders stats); pretty (white_book_moves stats);
      pretty (white_total_moves stats);
      repr_float rt (black_accuracy stats);
      pretty (black_best_moves stats); pretty (black_good_moves stats);
      pretty (black_inaccuracies stats); pretty (black_mistakes stats);
      pretty (black_blunders stats); pretty (black_book_moves stats);
      pretty (black_total_moves stats) ]
  +:+ newline.

(** [name] matches [*.pgn]. *)
Definition is_pgn (name : string) : bool :=
  let n := String.length name in
  ((4 <=? n) && String.eqb (String.substring (n - 4) 4 name) ".pgn")%nat.

Definition str_le (a b : string) : Prop := String.leb a b = true.

Global Instance str_le_dec a b : Decision (str_le a b).
Proof. unfold str_le. apply _. Defined.

(** [sorted(pgn_path.glob("*.pgn"))], as file names. *)
Definition discover (pgn_dir : gset string) : list string :=
  merge_sort str_le (filter (fun name => is_pgn name = true) (elements pgn_dir)).

Definition analyse_game_wrapper (rt : Runtime) (stockfish_path : string) (depth : Z)
  (book_path : option string) (name : string) : GameStats :=
  fst (analyse_game (world_of rt name) name stockfish_path depth book_path).

(** [open(output_file, 'a')] followed by one [write]. *)
Definition append_row (content row : string) : string := content +:+ row.

(** [analyse_all_games]: from the input directory (its file names) and the
    output file to the output file afterwards, together with the results
    collected in this run. *)
Definition analyse_all_games (rt : Runtime) (pgn_dir : gset string)
  (stockfish_path : string) (output_file : option string) (depth : Z)
  (book_path : option string) : option string * list GameStats :=
  let all_pgn_files := discover pgn_dir in
  match all_pgn_files with
  | [] => (output_file, [])
  | _ =>
      let processed_files := load_processed_files output_file in
      let pgn_files := filter (fun f => f ∉ processed_files) all_pgn_files in
      match pgn_files with
      | [] => (output_file, [])
      | _ =>
          let book_path :=
            match book_path with
            | Some p =>
                if is_empty p then book_path
                else if exists_path rt p then book_path else None
            | None => None
            end in
          let created :=
            match output_file with
            | None => header_row
            | Some content => content
            end in
          let results :=
            map (analyse_game_wrapper rt stockfish_path depth book_path)
                (imap_unordered rt pgn_files) in
          (Some (fold_left (fun content stats => append_row content (format_row rt stats))
                   results created),
           results)
      end
  end.

End Orchestrator.

(** ** Vocabulary of the properties, and sample collaborators *)

Module Spec.
Import Py Engine Pipeline Orchestrator.

Definition classes : list string :=
  ["best"; "good"; "inaccuracy"; "mistake"; "blunder"].

(** A classification dictionary holds its five keys. *)
Definition has_classes (d : gmap string Z) : Prop :=
  Forall (fun k => is_Some (d !! k)) classes.

Definition counter (d : gmap string Z) (k : string) : Z := default 0 (d !! k).

(** The number of moves a dictionary has classified. *)
Definition classified (d : gmap string Z) : Z :=
  counter d "best" + counter d "good" + counter d "inaccuracy"
  + counter d "mistake" + counter d "blunder".

(** The five classification columns and the book column of each colour. *)
Definition white_columns (s : GameStats) : Z :=
  white_best_moves s + white_good_moves s + white_inaccuracies s
  + white_mistakes s + white_blunders s + white_book_moves s.

Definition black_columns (s : GameStats) : Z :=
  black_best_moves s + black_good_moves s + black_inaccuracies s
  + black_mistakes s + black_blunders s + black_book_moves s.

Definition is_quit (ev : Event) : bool :=
  match ev with EngineQuit => true | _ => false end.

Definition is_started (ev : Event) : bool :=
  match ev with EngineStarted => true | _ => false end.

(** How often the engine process was stopped, and started, in a trace. *)
Definition quit_count (tr : list Event) : nat := length (List.filter is_quit tr).
Definition start_count (tr : list Event) : nat := length (List.filter is_started tr).

(** What the move loop maintains: each dictionary has classified as many
    moves as its colour has evaluation pairs, and pairs and book moves
    together are the plies that colour has played so far. *)
Record loop_invariant (st : Acc) : Prop := {
  inv_white_classes : has_classes (white_classifications st);
  inv_black_classes : has_classes (black_classifications st);
  inv_white_classified : classified (white_classifications st) = len (white_eval_pairs st);
  inv_black_classified : classified (black_classifications st) = len (black_eval_pairs st);
  inv_move_number : 0 <= move_number st;
  inv_white_plies :
    len (white_eval_pairs st) + acc_white_book_moves st = (move_number st + 1) / 2;
  inv_black_plies :
    len (black_eval_pairs st) + acc_black_book_moves st = move_number st / 2
}.

(** A file name that survives the round trip through column 1 of the
    output file: no tab, no line break, no whitespace at either end. *)
Definition plain_name (name : string) : bool :=
  String.eqb (strip name) name
  && negb (contains tab name) && negb (contains lf name) && negb (contains cr name).

(** Collaborators without an opening book whose engine process starts and
    stops without error and answers its [n]-th request with [replies n]. *)
Definition scripted_world (record : Res (option Game))
  (replies : nat -> Res (option PovScore)) : World :=
  {| read_game := record;
     path_exists := fun _ => false;
     open_reader := fun _ => Ok tt;
     book_truthy := true;
     find_all := fun _ => ([], None);
     popen_uci := fun _ => Ok tt;
     analyse := fun n _ _ => replies n;
     quit := Ok tt;
     close := Ok tt |}.

(** An evaluation of [cp] centipawns, reported from White's side. *)
Definition cp_info (cp : Z) : Res (option PovScore) :=
  Ok (Some {| relative := Cp cp; turn := White |}).

(** The engine answers with the evaluations of [evals], in order, and dies
    when they are used up. *)
Definition replies_of (evals : list Z) (n : nat) : Res (option PovScore) :=
  match evals !! n with
  | Some cp => cp_info cp
  | None => Raise (OtherError "engine process died unexpectedly")
  end.

Definition is_ok {A} (r : Res A) : bool :=
  match r with Ok _ => true | Raise _ => false end.

Definition game_of (tags : list (string * string)) (moves : list Move) : Game :=
  {| headers := list_to_map tags; mainline_moves := moves |}.

(** Two plies; the ratings are "?" for White and 1500 for Black. *)
Definition sample_game : Game :=
  game_of [("White", "alice"); ("Black", "bob"); ("Result", "1-0");
           ("WhiteElo", "?"); ("BlackElo", "1500"); ("TimeControl", "600+5")]
          ["e2e4"; "e7e5"].

Definition sample_world : World :=
  scripted_world (Ok (Some sample_game)) (replies_of [20; 15; 15; 75]).

(** The same game with an engine that dies on its second request. *)
Definition crashing_world : World :=
  scripted_world (Ok (Some sample_game)) (replies_of [20]).

(** The files of the directory that the output file does not list yet. *)
Definition remaining (pgn_dir : gset string) (output_file : option string) : list string :=
  filter (fun f => f ∉ load_processed_files output_file) (discover pgn_dir).

(** The book path the workers are given. *)
Definition worker_book (rt : Runtime) (book_path : option string) : option string :=
  match book_path with
  | Some p => if is_empty p then book_path else if exists_path rt p then book_path else None
  | None => None
  end.

(** The output file when the first row is about to be appended. *)
Definition opened (output_file : option string) : string :=
  match output_file with
  | None => header_row
  | Some content => content
  end.

(** The output file is absent, or ends with a line break. *)
Definition ends_line (output_file : option string) : Prop :=
  match output_file with
  | None => True
  | Some content => exists body, content = body +:+ newline
  end.

(** The text of the rows written for a list of results. *)
Definition rows_text (rt : Runtime) (results : list GameStats) : string :=
  fold_right (fun stats text => format_row rt stats +:+ text) "" results.

(** A batch environment: every file holds [sample_game], floats are
    written by [repr], results come back in reverse order of submission. *)
Definition sample_runtime (repr : R -> string) : Runtime :=
  {| repr_float := repr;
     world_of := fun _ => sample_world;
     exists_path := fun _ => false;
     imap_unordered := @rev string |}.

(** A batch environment in which no file holds a game. *)
Definition empty_files_runtime : Runtime :=
  {| repr_float := fun _ => "0";
     world_of := fun _ => scripted_world (Ok None) (replies_of []);
     exists_path := fun _ => false;
     imap_unordered := @rev string |}.


(** Two directories: one with plain names, one whose only game file has a
    name that starts with a space. *)
Definition plain_dir : gset string := {[ "a.pgn"; "b.pgn"; "notes.txt" ]}.


End Spec.

(** ** The exporter of [chesscom_pgn_export.py] *)

Module Exporter.
Import Py Orchestrator.

(** The characters of [invalid_chars], in the order of the source: less
    than, greater than, colon, double quote, slash, backslash, bar, question
    mark, star. *)
Definition invalid_chars : list ascii :=
  ["<"; ">"; ":"; ascii_of_nat 34; "/"; "\"; "|"; "?"; "*"]%char.

(** [text.replace(char, '_')] for a one-character [char]. *)
Fixpoint replace (char : ascii) (text : string) : string :=
  match text with
  | EmptyString => EmptyString
  | String c r => String (if Ascii.eqb c char then "_"%char else c) (replace char r)
  end.

Definition sanitize_filename (text : string) : string :=
  fold_left (fun text char => replace char text) invalid_chars text.

(** One game of an archive, as the JSON object has it; a missing key is
    [None]. *)
Record Game : Type := {
  pgn : option string;
  white_username : option string;
  black_username : option string;
  end_time : option Z
}.

(** The answer to a request: the decoded list, [RequestException], or any
    other exception. *)
Inductive Fetch (A : Type) : Type :=
| Fetched (a : A)
| RequestException
| OtherException.
Arguments Fetched {A} a.
Arguments RequestException {A}.
Arguments OtherException {A}.

(** The remote API and the clock: the archive list, the games of an archive,
    and the text of [datetime.fromtimestamp(t).strftime("%Y-%m-%d_%H%M")],
    [None] when [fromtimestamp] raises. *)
Record Remote : Type := {
  get_game_archives : Fetch (list string);
  get_games_from_archive : string -> Fetch (list Game);
  date_str : Z -> option string
}.

(** [get_existing_files] on the output directory once [mkdir] has run;
    the directory is a map from file name to content, and writing a file
    into it succeeds. *)
Definition get_existing_files (output_dir : gmap string string) : gset string :=
  filter (fun name => is_pgn name = true) (dom output_dir).

(** The state of the export: the directory and the two counters. *)
Record Progress : Type := {
  dir : gmap string string;
  total_games : Z;
  skipped_games : Z
}.

(** How a block ends: normally, or with an exception no handler of
    [export_games] catches. *)
Inductive Run : Type :=
| Finished (st : Progress)
| Raised (st : Progress).

Definition state_of (r : Run) : Progress :=
  match r with Finished st | Raised st => st end.

Fixpoint for_each {A : Type} (body : Progress -> A -> Run) (xs : list A)
  (st : Progress) : Run :=
  match xs with
  | [] => Finished st
  | x :: rest =>
      match body st x with
      | Finished st' => for_each body rest st'
      | Raised st' => Raised st'
      end
  end.

(** The file name of a game, given the text of its end time:
    [sanitize_filename(f"{date_str}_{white}_vs_{black}.pgn")]. *)
Definition filename_of (date : string) (game : Game) : string :=
  let white := default "unknown" (white_username game) in
  let black := default "unknown" (black_username game) in
  sanitize_filename (date +:+ "_" +:+ white +:+ "_vs_" +:+ black +:+ ".pgn").

(** The body of [for game in games]. *)
Definition export_game (rm : Remote) (existing_files : gset string)
  (st : Progress) (game : Game) : Run :=
  let pgn_ := default "" (pgn game) in
  if is_empty pgn_ then Finished st
  else
    match date_str rm (default 0 (end_time game)) with
    | None => Raised st
    | Some date =>
        let filename := filename_of date game in
        if decide (filename ∈ existing_files)
        then Finished {| dir := dir st; total_games := total_games st;
                         skipped_games := skipped_games st + 1 |}
        else Finished {| dir := <[filename := pgn_]> (dir st);
                         total_games := total_games st + 1;
                         skipped_games := skipped_games st |}
    end.

(** The body of [for archive_url in archives]: a [RequestException] skips
    the archive. *)
Definition export_archive (rm : Remote) (existing_files : gset string)
  (st : Progress) (archive_url : string) : Run :=
  match get_games_from_archive rm archive_url with
  | Fetched games => for_each (export_game rm existing_files) games st
  | RequestException => Finished st
  | OtherException => Raised st
  end.

(** [export_games]: the files of the directory and the counters when the
    call returns or raises. *)
Definition export_games (rm : Remote) (output_dir : gmap string string) : Run :=
  let existing_files := get_existing_files output_dir in
  let start := {| dir := output_dir; total_games := 0; skipped_games := 0 |} in
  match get_game_archives rm with
  | Fetched archives => for_each (export_archive rm existing_files) archives start
  | RequestException => Finished start
  | OtherException => Raised start
  end.

(** *** Vocabulary of the exporter's properties *)

(** What [sanitize_filename] does to one character. *)
Definition clean (c : ascii) : ascii :=
  if existsb (Ascii.eqb c) invalid_chars then "_"%char else c.

(** Every PGN file of the state's directory is in the set [names]. *)
Definition covered (names : gset string) (st : Progress) : Prop :=
  forall name, name ∈ dom (dir st) -> is_pgn name = true -> name ∈ names.

(** The block that gave [r] from [st] gives [r2] from [st2] when nothing
    is written any more: it ends the same way, leaves the directory and
    [total_games] alone, and skips every game [r] saved or skipped. *)
Definition replays (st : Progress) (r : Run) (st2 : Progress) (r2 : Run) : Prop :=
  exists st2',
    r2 = match r with Finished _ => Finished st2' | Raised _ => Raised st2' end
    /\ dir st2' = dir st2
    /\ total_games st2' = total_games st2
    /\ skipped_games st2' - skipped_games st2
       = (total_games (state_of r) - total_games st)
         + (skipped_games (state_of r) - skipped_games st).

(** No whitespace character occurs in the text. *)
Definition no_space (text : string) : Prop :=
  forall c, isspace c = true -> contains c text = false.

(** A game of the same two players with the given PGN text, and an API
    with one archive of two such games that ended in the same minute. *)
Definition game_with (content : string) : Game :=
  {| pgn := Some content;
     white_username := Some "al:ice";
     black_username := None;
     end_time := Some 0 |}.

Definition sample_remote : Remote :=
  {| get_game_archives := Fetched ["2024/01"];
     get_games_from_archive := fun _ => Fetched [game_with "1. e4 e5"; game_with "1. d4 d5"];
     date_str := fun _ => Some "1970-01-01_0000" |}.

End Exporter.

(** ** Further vocabulary and sample collaborators *)

Module Vocabulary.
Import Py Engine Pipeline Orchestrator Spec.

(** The values [time_control] can take. *)
Definition time_classes : list string :=
  ["bullet"; "blitz"; "rapid"; "classical"; "daily"; "unknown"].

(** The number of moves sent to the engine so far. *)
Definition evaluated (st : Acc) : Z := len (white_eval_pairs st) + len (black_eval_pairs st).

(** The text is read back as one line. *)
Definition one_line (row : string) : Prop := readlines row [] false = [row].

(** The same batch environment with another completion order. *)
Definition with_order (rt : Runtime) (order : list string -> list string) : Runtime :=
  {| repr_float := repr_float rt;
     world_of := world_of rt;
     exists_path := exists_path rt;
     imap_unordered := order |}.

(** [sample_world] with an opening book that answers [entries]. *)
Definition book_world (entries : Board -> list Move * option Exn) : World :=
  {| read_game := Ok (Some sample_game);
     path_exists := fun _ => true;
     open_reader := fun _ => Ok tt;
     book_truthy := true;
     find_all := entries;
     popen_uci := fun _ => Ok tt;
     analyse := fun n _ _ => replies_of [20; 15; 15; 75] n;
     quit := Ok tt;
     close := Ok tt |}.

(** A book that knows two first moves and nothing after them. *)
Definition first_move_book (board : Board) : list Move * option Exn :=
  match board with
  | [] => (["e2e4"; "d2d4"], None)
  | _ => ([], Some IndexError)
  end.

End Vocabulary.

(** * Properties *)

Import Py Engine Pipeline Orchestrator Spec.

(** ** Mate normalisation *)

Section MateScores.

Lemma convert_mate_some (s : Score) (d : Z) :
  convert_mate_to_centipawns s (Some d)
  = Some (if 0 <? d then 10000 - Z.abs d * 50 else - (10000 - Z.abs d * 50)).
Proof. reflexivity. Qed.

Lemma convert_mate_nonzero (s : Score) (d : Z) :
  d <> 0 ->
  convert_mate_to_centipawns s (Some d) = Some (Z.sgn d * (10000 - 50 * Z.abs d)).
Proof.
  intros Hd. rewrite convert_mate_some. f_equal.
  destruct (Z.ltb_spec 0 d) as [Hpos | Hneg].
  - rewrite Z.sgn_pos by lia. lia.
  - rewrite Z.sgn_neg by lia. lia.
Qed.

Lemma white_pov_cases (p : PovScore) :
  white p = relative p \/ white p = neg (relative p).
Proof. unfold white. destruct (turn p); auto. Qed.

Lemma get_eval_of_mate (p : PovScore) (n : Z) :
  white p = Mate n ->
  get_eval_centipawns p = convert_mate_to_centipawns (Mate n) (Some n).
Proof. intros Hw. unfold get_eval_centipawns. rewrite Hw. reflexivity. Qed.

Lemma eval_after_of_mate (p : PovScore) (n : Z) :
  white p = Mate n ->
  eval_after_centipawns p = Some (if 0 <? n then 10000 - n else - 10000 - n).
Proof.
  intros Hw. unfold eval_after_centipawns. rewrite Hw. cbn.
  destruct (0 <? n); reflexivity.
Qed.

(** The evaluation before a move is never [None]. *)
Lemma get_eval_is_some (p : PovScore) : exists v, get_eval_centipawns p = Some v.
Proof.
  unfold get_eval_centipawns. destruct (white p) as [c | n |]; cbn; eauto.
Qed.

(** Neither is the evaluation after it. *)
Lemma eval_after_is_some (p : PovScore) : exists v, eval_after_centipawns p = Some v.
Proof.
  unfold eval_after_centipawns. destruct (white p) as [c | n |]; cbn; eauto.
  destruct (0 <? n); eauto.
Qed.

(** C10: for a nonzero mate distance [d] the conversion is
    [sign(d) * (10000 - 50*|d|)], unclamped: its sign is the sign of [d]
    exactly when [|d| <= 199]; from [|d| = 200] on the value is zero or has
    the opposite sign, and mate in 201 for White gives [-50]. *)
Theorem convert_mate_unclamped (s : Score) (d : Z) :
  d <> 0 ->
  let v := Z.sgn d * (10000 - 50 * Z.abs d) in
  convert_mate_to_centipawns s (Some d) = Some v
  /\ (Z.sgn v = Z.sgn d <-> Z.abs d <= 199)
  /\ (200 <= Z.abs d -> v = 0 \/ Z.sgn v = - Z.sgn d)
  /\ convert_mate_to_centipawns s (Some 201) = Some (-50).
Proof.
  intros Hd v. split; [ apply convert_mate_nonzero, Hd | ].
  assert (Hv : v = Z.sgn d * (10000 - 50 * Z.abs d)) by reflexivity.
  clearbody v.
  destruct (Z.lt_total d 0) as [Hneg | [H0 | Hpos]]; [ | contradiction | ].
  - rewrite (Z.sgn_neg d) in * by lia. rewrite (Z.abs_neq d) in * by lia.
    repeat split.
    + intros Hs. destruct (Z.le_gt_cases (- d) 199) as [Hle | Hgt]; [ exact Hle | ].
      exfalso. assert (0 <= v) by lia.
      destruct (Z.sgn_spec v) as [[? ?] | [[? ?] | [? ?]]]; lia.
    + intros Hle. apply Z.sgn_neg. lia.
    + intros Hge. destruct (Z.eq_dec (- d) 200) as [He | Hne].
      * left. lia.
      * right. replace (- -1) with 1 by lia. apply Z.sgn_pos. lia.
  - rewrite (Z.sgn_pos d) in * by lia. rewrite (Z.abs_eq d) in * by lia.
    repeat split.
    + intros Hs. destruct (Z.le_gt_cases d 199) as [Hle | Hgt]; [ exact Hle | ].
      exfalso. assert (v <= 0) by lia.
      destruct (Z.sgn_spec v) as [[? ?] | [[? ?] | [? ?]]]; lia.
    + intros Hle. apply Z.sgn_pos. lia.
    + intros Hge. destruct (Z.eq_dec d 200) as [He | Hne].
      * left. lia.
      * right. apply Z.sgn_neg. lia.
Qed.

Lemma convert_mate_unclamped_witness :
  convert_mate_to_centipawns (Mate 201) (Some 201) = Some (Z.sgn 201 * (10000 - 50 * Z.abs 201))
  /\ (Z.sgn (Z.sgn 201 * (10000 - 50 * Z.abs 201)) = Z.sgn 201 <-> Z.abs 201 <= 199)
  /\ (200 <= Z.abs 201 ->
      Z.sgn 201 * (10000 - 50 * Z.abs 201) = 0
      \/ Z.sgn (Z.sgn 201 * (10000 - 50 * Z.abs 201)) = - Z.sgn 201)
  /\ convert_mate_to_centipawns (Mate 201) (Some 201) = Some (-50).
Proof. apply (convert_mate_unclamped (Mate 201) 201). lia. Defined.

(** C4, as the code has it: with the position before the move a mate in
    [n] ([n <> 0], seen from White) becomes [sign(n) * (10000 - 50*|n|)],
    so [+1] gives 9950 and [-3] gives -9850; with the position after the
    move the library converts it with [mate_score = 10000], which is
    [sign(n) * (10000 - |n|)]: one centipawn per move instead of fifty, and
    exactly 10000 only for a mate already given. *)
Theorem mate_normalisation_asymmetric (p : PovScore) (n : Z) :
  n <> 0 ->
  white p = Mate n ->
  get_eval_centipawns p = Some (Z.sgn n * (10000 - 50 * Z.abs n))
  /\ eval_after_centipawns p = Some (Z.sgn n * (10000 - Z.abs n))
  /\ get_eval_centipawns {| relative := Mate 1; turn := White |} = Some 9950
  /\ get_eval_centipawns {| relative := Mate (-3); turn := White |} = Some (-9850)
  /\ eval_after_centipawns {| relative := MateGiven; turn := White |} = Some 10000.
Proof.
  intros Hn Hw. repeat split.
  - rewrite (get_eval_of_mate p n Hw). apply convert_mate_nonzero, Hn.
  - rewrite (eval_after_of_mate p n Hw). f_equal.
    destruct (Z.ltb_spec 0 n).
    + rewrite Z.sgn_pos, Z.abs_eq by lia. lia.
    + rewrite Z.sgn_neg, Z.abs_neq by lia. lia.
Qed.

Lemma mate_normalisation_asymmetric_witness :
  get_eval_centipawns {| relative := Mate 3; turn := Black |}
  = Some (Z.sgn (-3) * (10000 - 50 * Z.abs (-3)))
  /\ eval_after_centipawns {| relative := Mate 3; turn := Black |}
     = Some (Z.sgn (-3) * (10000 - Z.abs (-3)))
  /\ get_eval_centipawns {| relative := Mate 1; turn := White |} = Some 9950
  /\ get_eval_centipawns {| relative := Mate (-3); turn := White |} = Some (-9850)
  /\ eval_after_centipawns {| relative := MateGiven; turn := White |} = Some 10000.
Proof.
  apply (mate_normalisation_asymmetric {| relative := Mate 3; turn := Black |} (-3));
    [ lia | reflexivity ].
Defined.

(** C4 as stated fails: after the move a mate in 3 for White is valued
    9997, not a flat 10000. *)
Lemma eval_after_mate_not_flat :
  eval_after_centipawns {| relative := Mate 3; turn := White |} = Some 9997
  /\ eval_after_centipawns {| relative := Mate 3; turn := White |} <> Some 10000.
Proof. split; [ reflexivity | discriminate ]. Qed.

End MateScores.

(** ** The accuracy curves *)

Section AccuracyCurves.
Import Accuracy.
Local Open Scope R_scope.









(** The clamp [max(0, min(100, x))]. *)
Lemma clamp_inside (x : R) : 0 <= x <= 100 -> Rmax 0 (Rmin 100 x) = x.
Proof.
  intros [H0 H100]. rewrite Rmin_right by exact H100. apply Rmax_right, H0.
Qed.

Lemma clamp_above (x : R) : 100 <= x -> Rmax 0 (Rmin 100 x) = 100.
Proof.
  intros H. rewrite Rmin_left by exact H. apply Rmax_right. lra.
Qed.

Lemma move_accuracy_no_change (w : R) : calculate_move_accuracy w w = 99.9999.
Proof.
  unfold calculate_move_accuracy.
  replace (- 0.04354 * (w - w)) with 0 by lra.
  rewrite exp_0. rewrite clamp_inside; lra.
Qed.

(** C7 as stated fails: an unchanged win percentage gives 99.9999, which is
    not 100. *)
Lemma move_accuracy_no_change_not_100 :
  calculate_move_accuracy 50 50 = 99.9999 /\ calculate_move_accuracy 50 50 <> 100.
Proof.
  rewrite move_accuracy_no_change. split; [ reflexivity | lra ].
Qed.

(** The binary64 value agrees: with [exp(-0.0) = 1] an unchanged win
    percentage gives a value below 100. *)
Lemma move_accuracy_no_change_binary64 (fexp : float -> float) :
  fexp (-0)%float = 1%float ->
  (Binary64.calculate_move_accuracy fexp 50 50 <? 100)%float = true.
Proof.
  intros H. unfold Binary64.calculate_move_accuracy.
  change (-0.04354 * (50 - 50))%float with (-0)%float.
  rewrite H. reflexivity.
Qed.

(** C7, as the code has it: an unchanged win percentage gives
    [103.1668 - 3.1669 = 99.9999]; whenever the win percentage did not drop
    the accuracy lies between 99.9999 and 100; it is 100 exactly when the
    unclamped value [103.1668 * exp (-0.04354 * loss) - 3.1669] reaches 100,
    which it does as soon as the win percentage rose by 0.00003. *)
Theorem move_accuracy_without_loss (win_before win_after : R) :
  win_before <= win_after ->
  calculate_move_accuracy win_before win_before = 99.9999
  /\ 99.9999 <= calculate_move_accuracy win_before win_after <= 100
  /\ (calculate_move_accuracy win_before win_after = 100
      <-> 100 <= 103.1668 * exp (- 0.04354 * (win_before - win_after)) - 3.1669)
  /\ (0.00003 <= win_after - win_before ->
      calculate_move_accuracy win_before win_after = 100).
Proof.
  intros Hle. split; [ apply move_accuracy_no_change | ].
  unfold calculate_move_accuracy.
  set (loss := win_before - win_after).
  assert (Hloss : loss <= 0) by (unfold loss; lra).
  assert (Hexp : 1 <= exp (- 0.04354 * loss)).
  { rewrite <- exp_0. destruct (Req_dec loss 0) as [-> | Hne].
    - right. f_equal. lra.
    - left. apply exp_increasing. lra. }
  assert (Hgain : 0.00003 <= win_after - win_before ->
                  100 <= 103.1668 * exp (- 0.04354 * loss) - 3.1669).
  { intros Hg. pose proof (exp_ineq1_le (- 0.04354 * loss)) as Hlin.
    unfold loss in *. lra. }
  set (x := 103.1668 * exp (- 0.04354 * loss) - 3.1669) in *.
  assert (Hx : 99.9999 <= x) by (unfold x; lra).
  destruct (Rle_dec x 100) as [Hin | Hout].
  - rewrite clamp_inside by lra. split; [ lra | ].
    split; [ split; intros; lra | ]. intros Hg. specialize (Hgain Hg). lra.
  - rewrite clamp_above by lra. split; [ lra | ].
    split; [ split; intros; lra | ]. reflexivity.
Qed.

Lemma move_accuracy_without_loss_witness :
  40 <= 60
  /\ calculate_move_accuracy 40 40 = 99.9999
  /\ 99.9999 <= calculate_move_accuracy 40 60 <= 100
  /\ (calculate_move_accuracy 40 60 = 100
      <-> 100 <= 103.1668 * exp (- 0.04354 * (40 - 60)) - 3.1669)
  /\ (0.00003 <= 60 - 40 -> calculate_move_accuracy 40 60 = 100).
Proof.
  assert (H : 40 <= 60) by lra.
  split; [ exact H | apply (move_accuracy_without_loss 40 60 H) ].
Defined.

(** For the record: [averageAccuracy([]) = 0]. *)
Lemma calculate_accuracy_empty : calculate_accuracy [] = 0.
Proof. reflexivity. Qed.

End AccuracyCurves.

(** ** Classification and the bookkeeping of one move *)

Section MoveEvaluator.

Lemma classify_move_table (loss : Z) :
  (loss <= 10 -> classify_move loss = "best")
  /\ (10 < loss <= 25 -> classify_move loss = "good")
  /\ (25 < loss <= 50 -> classify_move loss = "inaccuracy")
  /\ (50 < loss <= 100 -> classify_move loss = "mistake")
  /\ (100 < loss -> classify_move loss = "blunder").
Proof.
  unfold classify_move.
  destruct (Z.leb_spec loss 10), (Z.leb_spec loss 25),
    (Z.leb_spec loss 50), (Z.leb_spec loss 100);
    repeat split; intros; solve [ reflexivity | lia ].
Qed.

Lemma classify_move_in_classes (loss : Z) : classify_move loss ∈ classes.
Proof.
  unfold classify_move, classes.
  repeat case_match; set_solver.
Qed.

Lemma eval_loss_of_spec (is_white_move : bool) (eval_before eval_after : Z) :
  eval_loss_of is_white_move eval_before eval_after
  = Z.max 0 (if is_white_move then eval_before - eval_after
             else eval_after - eval_before)
  /\ 0 <= eval_loss_of is_white_move eval_before eval_after.
Proof. unfold eval_loss_of. split; [ reflexivity | lia ]. Qed.

Lemma has_classes_lookup (d : gmap string Z) (k : string) :
  has_classes d -> k ∈ classes -> d !! k = Some (counter d k).
Proof.
  intros Hd Hk. unfold has_classes in Hd. rewrite Forall_forall in Hd.
  destruct (Hd k Hk) as [n Hn]. unfold counter. rewrite Hn. reflexivity.
Qed.

Lemma has_classes_new : has_classes new_classifications.
Proof.
  unfold has_classes, classes, new_classifications.
  repeat constructor; eexists; by simplify_map_eq.
Qed.

Lemma has_classes_insert (d : gmap string Z) (k : string) (n : Z) :
  has_classes d -> has_classes (<[k := n]> d).
Proof.
  unfold has_classes. rewrite !Forall_forall. intros Hd x Hx.
  destruct (decide (k = x)) as [-> | Hne].
  - rewrite lookup_insert_eq. eauto.
  - rewrite lookup_insert_ne by done. auto.
Qed.

Lemma counter_insert (d : gmap string Z) (k k' : string) (n : Z) :
  counter (<[k := n]> d) k' = if decide (k = k') then n else counter d k'.
Proof.
  unfold counter. destruct (decide (k = k')) as [-> | Hne].
  - by rewrite lookup_insert_eq.
  - by rewrite lookup_insert_ne.
Qed.

(** [d[key] += 1] on a key of the dictionary. *)
Lemma dict_incr_ok (d : gmap string Z) (k : string) :
  has_classes d -> k ∈ classes ->
  dict_incr d k = Ok (<[k := counter d k + 1]> d).
Proof.
  intros Hd Hk. unfold dict_incr. rewrite (has_classes_lookup d k Hd Hk).
  reflexivity.
Qed.

Lemma classified_incr (d : gmap string Z) (k : string) :
  k ∈ classes ->
  classified (<[k := counter d k + 1]> d) = classified d + 1.
Proof.
  intros Hk. unfold classified. rewrite !counter_insert.
  unfold classes in Hk.
  repeat (apply elem_of_cons in Hk as [-> | Hk]);
    [ .. | by apply elem_of_nil in Hk ];
    repeat case_decide; try discriminate; try congruence; lia.
Qed.

Lemma record_move_ok (st : Acc) (is_white_move : bool) (eval_before eval_after : Z)
  (board' : Board) (move_number' : Z) :
  has_classes (white_classifications st) ->
  has_classes (black_classifications st) ->
  let c := classify_move (eval_loss_of is_white_move eval_before eval_after) in
  record_move st is_white_move eval_before eval_after board' move_number'
  = Ok (if is_white_move then
          Build_Acc
            (<[c := counter (white_classifications st) c + 1]> (white_classifications st))
            (black_classifications st)
            (white_eval_pairs st ++ [(eval_before, eval_after)]) (black_eval_pairs st)
            (acc_white_book_moves st) (acc_black_book_moves st) board' move_number'
        else
          Build_Acc
            (white_classifications st)
            (<[c := counter (black_classifications st) c + 1]> (black_classifications st))
            (white_eval_pairs st) (black_eval_pairs st ++ [(- eval_before, - eval_after)])
            (acc_white_book_moves st) (acc_black_book_moves st) board' move_number').
Proof.
  intros Hw Hb c. unfold record_move. fold c.
  destruct is_white_move.
  - rewrite (dict_incr_ok _ c Hw (classify_move_in_classes _)). reflexivity.
  - rewrite (dict_incr_ok _ c Hb (classify_move_in_classes _)). reflexivity.
Qed.

Lemma count_analyse_snoc (tr : list Event) (b : Board) (d : Z) :
  count_analyse (tr ++ [EngineAnalyse b d]) = S (count_analyse tr).
Proof.
  unfold count_analyse. rewrite List.filter_app, length_app. cbn. lia.
Qed.

(** A move outside the book whose two engine requests are answered. *)
Lemma analyse_move_engine (w : World) (depth : Z) (book_reader : bool) (st : Acc)
  (move : Move) (tr : list Event) (score_before score_after : PovScore)
  (eval_before eval_after : Z) :
  (if book_reader && book_truthy w then book_has_move w (board st) move else Ok false)
  = Ok false ->
  analyse w (count_analyse tr) (board st) depth = Ok (Some score_before) ->
  analyse w (S (count_analyse tr)) (board st ++ [move]) depth = Ok (Some score_after) ->
  get_eval_centipawns score_before = Some eval_before ->
  eval_after_centipawns score_after = Some eval_after ->
  analyse_move w depth book_reader st move tr
  = (record_move st ((move_number st + 1) mod 2 =? 1) eval_before eval_after
       (board st ++ [move]) (move_number st + 1),
     tr ++ [EngineAnalyse (board st) depth; EngineAnalyse (board st ++ [move]) depth]).
Proof.
  intros Hbook Hb Ha Heb Hea.
  unfold analyse_move, bind, lift, engine_analyse.
  rewrite Hbook, Hb. cbn. rewrite count_analyse_snoc, Ha. cbn.
  rewrite Heb, Hea. cbn. rewrite <- app_assoc. reflexivity.
Qed.

(** C5: for a move outside the book the loss is [evalBefore - evalAfter] for
    White and [evalAfter - evalBefore] for Black, clamped at 0; it is
    classified with inclusive upper bounds 10, 25, 50 and 100, first match
    first; exactly the mover's counter of that class goes up by one and the
    pair is appended to the mover's list, negated for Black. *)
Theorem non_book_move_bookkeeping (w : World) (depth : Z) (book_reader : bool)
  (st : Acc) (move : Move) (tr : list Event) (score_before score_after : PovScore)
  (eval_before eval_after : Z) :
  has_classes (white_classifications st) ->
  has_classes (black_classifications st) ->
  (if book_reader && book_truthy w then book_has_move w (board st) move else Ok false)
  = Ok false ->
  analyse w (count_analyse tr) (board st) depth = Ok (Some score_before) ->
  analyse w (S (count_analyse tr)) (board st ++ [move]) depth = Ok (Some score_after) ->
  get_eval_centipawns score_before = Some eval_before ->
  eval_after_centipawns score_after = Some eval_after ->
  let is_white_move := (move_number st + 1) mod 2 =? 1 in
  let loss := Z.max 0 (if is_white_move then eval_before - eval_after
                       else eval_after - eval_before) in
  let c := classify_move loss in
  0 <= loss
  /\ ((loss <= 10 -> c = "best")
      /\ (10 < loss <= 25 -> c = "good")
      /\ (25 < loss <= 50 -> c = "inaccuracy")
      /\ (50 < loss <= 100 -> c = "mistake")
      /\ (100 < loss -> c = "blunder"))
  /\ (classify_move 10 = "best" /\ classify_move 11 = "good"
      /\ classify_move 25 = "good" /\ classify_move 26 = "inaccuracy"
      /\ classify_move 50 = "inaccuracy" /\ classify_move 51 = "mistake"
      /\ classify_move 100 = "mistake" /\ classify_move 101 = "blunder")
  /\ exists st',
      fst (analyse_move w depth book_reader st move tr) = Ok st'
      /\ acc_white_book_moves st' = acc_white_book_moves st
      /\ acc_black_book_moves st' = acc_black_book_moves st
      /\ if is_white_move then
           (forall k, counter (white_classifications st') k
                      = counter (white_classifications st) k
                        + (if decide (c = k) then 1 else 0))
           /\ black_classifications st' = black_classifications st
           /\ white_eval_pairs st' = white_eval_pairs st ++ [(eval_before, eval_after)]
           /\ black_eval_pairs st' = black_eval_pairs st
         else
           (forall k, counter (black_classifications st') k
                      = counter (black_classifications st) k
                        + (if decide (c = k) then 1 else 0))
           /\ white_classifications st' = white_classifications st
           /\ black_eval_pairs st' = black_eval_pairs st ++ [(- eval_before, - eval_after)]
           /\ white_eval_pairs st' = white_eval_pairs st.
Proof.
  intros Hw Hb Hbook Hbefore Hafter Heb Hea is_white_move loss c.
  split; [ unfold loss; lia | ].
  split; [ apply classify_move_table | ].
  split; [ repeat split | ].
  rewrite (analyse_move_engine w depth book_reader st move tr _ _ _ _
             Hbook Hbefore Hafter Heb Hea).
  rewrite (record_move_ok st _ eval_before eval_after _ _ Hw Hb).
  fold is_white_move. unfold eval_loss_of. fold loss. fold c.
  eexists. split; [ reflexivity | ].
  destruct is_white_move; cbn; repeat split; try reflexivity;
    intros k; rewrite counter_insert; case_decide; subst; lia.
Qed.

Lemma non_book_move_bookkeeping_witness :
  exists st',
    fst (analyse_move sample_world 18 false initial_acc "e2e4" [EngineStarted]) = Ok st'
    /\ counter (white_classifications st') "best" = 1
    /\ counter (white_classifications st') "good" = 0
    /\ black_classifications st' = new_classifications
    /\ white_eval_pairs st' = [(20, 15)]
    /\ black_eval_pairs st' = [].
Proof.
  destruct (non_book_move_bookkeeping sample_world 18 false initial_acc "e2e4"
              [EngineStarted]
              {| relative := Cp 20; turn := White |}
              {| relative := Cp 15; turn := White |} 20 15
              has_classes_new has_classes_new eq_refl eq_refl eq_refl eq_refl eq_refl)
    as (_ & _ & _ & st' & Hrun & _ & _ & Hupd).
  exists st'. split; [ exact Hrun | ].
  change ((forall k, counter (white_classifications st') k
                     = counter new_classifications k
                       + (if decide (classify_move (Z.max 0 (20 - 15)) = k) then 1 else 0))
          /\ black_classifications st' = new_classifications
          /\ white_eval_pairs st' = [] ++ [(20, 15)]
          /\ black_eval_pairs st' = []) in Hupd.
  destruct Hupd as (Hcount & Hblack & Hwp & Hbp).
  split; [ rewrite Hcount; reflexivity | ].
  split; [ rewrite Hcount; reflexivity | ].
  split; [ exact Hblack | ].
  split; [ exact Hwp | exact Hbp ].
Defined.

End MoveEvaluator.

(** ** The move loop and the record it leads to *)

Section GamePipeline.

Lemma quit_count_snoc (tr : list Event) (ev : Event) :
  quit_count (tr ++ [ev]) = (quit_count tr + (if is_quit ev then 1 else 0))%nat.
Proof.
  unfold quit_count. rewrite List.filter_app, length_app. cbn.
  destruct (is_quit ev); reflexivity.
Qed.

Lemma start_count_snoc (tr : list Event) (ev : Event) :
  start_count (tr ++ [ev]) = (start_count tr + (if is_started ev then 1 else 0))%nat.
Proof.
  unfold start_count. rewrite List.filter_app, length_app. cbn.
  destruct (is_started ev); reflexivity.
Qed.

Lemma len_snoc {A} (l : list A) (x : A) : len (l ++ [x]) = len l + 1.
Proof. unfold len. rewrite length_app. cbn. lia. Qed.

(** One iteration neither starts nor stops the engine. *)
Lemma analyse_move_trace (w : World) (depth : Z) (br : bool) (st : Acc) (move : Move)
  (tr tr' : list Event) (r : Res Acc) :
  analyse_move w depth br st move tr = (r, tr') ->
  quit_count tr' = quit_count tr /\ start_count tr' = start_count tr.
Proof.
  unfold analyse_move, bind, lift, engine_analyse, ret.
  intros H.
  repeat case_match; simplify_eq; rewrite ?quit_count_snoc, ?start_count_snoc; cbn; try lia.
Qed.

Lemma record_book_move_inv (st : Acc) (b' : Board) :
  loop_invariant st ->
  loop_invariant (record_book_move st ((move_number st + 1) mod 2 =? 1) b' (move_number st + 1)).
Proof.
  intros [Hwc Hbc Hw Hb Hn Hwp Hbp]. unfold record_book_move.
  destruct (Z.eqb_spec ((move_number st + 1) mod 2) 1) as [Hodd | Heven];
    constructor; cbn; try assumption; try lia;
    Z.div_mod_to_equations; lia.
Qed.

Lemma record_move_inv (st st' : Acc) (eb ea : Z) (b' : Board) :
  loop_invariant st ->
  record_move st ((move_number st + 1) mod 2 =? 1) eb ea b' (move_number st + 1) = Ok st' ->
  loop_invariant st'.
Proof.
  intros [Hwc Hbc Hw Hb Hn Hwp Hbp].
  rewrite (record_move_ok st _ eb ea _ _ Hwc Hbc).
  intros [= <-].
  destruct (Z.eqb_spec ((move_number st + 1) mod 2) 1) as [Hodd | Heven];
    constructor; cbn;
    rewrite ?len_snoc, ?(classified_incr _ _ (classify_move_in_classes _));
    try assumption; try (apply has_classes_insert; assumption); try lia;
    Z.div_mod_to_equations; lia.
Qed.

Lemma record_move_number (st st' : Acc) (iw : bool) (eb ea : Z) (b' : Board) (n' : Z) :
  record_move st iw eb ea b' n' = Ok st' -> move_number st' = n'.
Proof.
  unfold record_move, res_bind. intros H. repeat case_match; simplify_eq; reflexivity.
Qed.

(** One iteration keeps the invariant and counts one ply. *)
Lemma analyse_move_inv (w : World) (depth : Z) (br : bool) (st st' : Acc) (move : Move)
  (tr tr' : list Event) :
  loop_invariant st ->
  analyse_move w depth br st move tr = (Ok st', tr') ->
  loop_invariant st' /\ move_number st' = move_number st + 1.
Proof.
  intros Hinv. unfold analyse_move, bind, lift, engine_analyse, ret.
  intros H.
  repeat case_match; simplify_eq;
    try (split; [ apply record_book_move_inv, Hinv
                | unfold record_book_move; case_match; reflexivity ]);
    (split; [ eapply record_move_inv; eauto | eapply record_move_number; eauto ]).
Qed.

Lemma move_loop_trace (w : World) (depth : Z) (br : bool) (moves : list Move) :
  forall (st : Acc) (tr : list Event) (r : Res Acc) (tr' : list Event),
  move_loop w depth br moves st tr = (r, tr') ->
  quit_count tr' = quit_count tr /\ start_count tr' = start_count tr.
Proof.
  induction moves as [| move rest IH]; intros st tr r tr' H; cbn in H.
  - unfold ret in H. simplify_eq. auto.
  - unfold bind in H.
    destruct (analyse_move w depth br st move tr) as [[st1 | e] tr1] eqn:Hstep.
    + destruct (analyse_move_trace _ _ _ _ _ _ _ _ Hstep) as [Hq Hs].
      destruct (IH _ _ _ _ H) as [Hq' Hs']. split; congruence.
    + simplify_eq. eapply analyse_move_trace; eauto.
Qed.

Lemma move_loop_inv (w : World) (depth : Z) (br : bool) (moves : list Move) :
  forall (st : Acc) (tr : list Event) (st' : Acc) (tr' : list Event),
  loop_invariant st ->
  move_loop w depth br moves st tr = (Ok st', tr') ->
  loop_invariant st' /\ move_number st' = move_number st + len moves.
Proof.
  induction moves as [| move rest IH]; intros st tr st' tr' Hinv H; cbn in H.
  - unfold ret in H. simplify_eq. split; [ assumption | unfold len; cbn; lia ].
  - unfold bind in H.
    destruct (analyse_move w depth br st move tr) as [[st1 | e] tr1] eqn:Hstep;
      [ | discriminate ].
    destruct (analyse_move_inv _ _ _ _ _ _ _ _ Hinv Hstep) as [Hinv1 Hn1].
    destruct (IH _ _ _ _ Hinv1 H) as [Hinv' Hn'].
    split; [ assumption | ]. rewrite Hn', Hn1. unfold len. cbn [length]. lia.
Qed.

Lemma loop_invariant_initial : loop_invariant initial_acc.
Proof.
  constructor; cbn; try apply has_classes_new; try reflexivity; lia.
Qed.

Lemma emit_stats_ok (name wp bp : string) (we be : Z) (tc op : string) (res : Z) (st : Acc) :
  has_classes (white_classifications st) ->
  has_classes (black_classifications st) ->
  emit_stats name wp bp we be tc op res st
  = Ok (Build_GameStats name wp bp we be tc op res
          (Accuracy.round1 (Accuracy.calculate_accuracy (white_eval_pairs st)))
          (counter (white_classifications st) "best")
          (counter (white_classifications st) "good")
          (counter (white_classifications st) "inaccuracy")
          (counter (white_classifications st) "mistake")
          (counter (white_classifications st) "blunder")
          (acc_white_book_moves st)
          (len (white_eval_pairs st) + acc_white_book_moves st)
          (Accuracy.round1 (Accuracy.calculate_accuracy (black_eval_pairs st)))
          (counter (black_classifications st) "best")
          (counter (black_classifications st) "good")
          (counter (black_classifications st) "inaccuracy")
          (counter (black_classifications st) "mistake")
          (counter (black_classifications st) "blunder")
          (acc_black_book_moves st)
          (len (black_eval_pairs st) + acc_black_book_moves st)).
Proof.
  intros Hw Hb. unfold emit_stats, dict_get.
  rewrite !(has_classes_lookup (white_classifications st))
    by first [ assumption | unfold classes; set_solver ].
  rewrite !(has_classes_lookup (black_classifications st))
    by first [ assumption | unfold classes; set_solver ].
  cbn.
  reflexivity.
Qed.

(** What a completed analysis of a loaded game consists of. *)
Lemma analyse_loaded_game_ok (w : World) (name sf : string) (depth : Z)
  (book_path : option string) (game : Game) (tr0 tr : list Event) (stats : GameStats) :
  analyse_loaded_game w name sf depth book_path game tr0 = (Ok stats, tr) ->
  exists elos tcl st,
    parse_elos (get (headers game) "WhiteElo" "0") (get (headers game) "BlackElo" "0")
    = Ok elos
    /\ parse_time_control (get (headers game) "TimeControl" "") = Ok tcl
    /\ loop_invariant st
    /\ move_number st = len (mainline_moves game)
    /\ emit_stats name (get (headers game) "White" "unknown")
         (get (headers game) "Black" "unknown") (fst elos) (snd elos) tcl
         (get (headers game) "ECO" "unknown")
         (parse_result (get (headers game) "Result" "*")) st = Ok stats
    /\ quit_count tr = S (quit_count tr0)
    /\ start_count tr = S (start_count tr0).
Proof.
  unfold analyse_loaded_game. unfold bind at 1. unfold lift at 1.
  destruct (parse_elos _ _) as [elos | e]; [ | discriminate ].
  unfold bind at 1. unfold lift at 1.
  destruct (parse_time_control _) as [tcl | e]; [ | discriminate ].
  unfold bind at 1.
  match goal with |- context [match ?c tr0 with _ => _ end] =>
    destruct (c tr0) as [[br | e] tr1] eqn:Hbook end; [ | discriminate ].
  assert (Htr1 : quit_count tr1 = quit_count tr0 /\ start_count tr1 = start_count tr0).
  { unfold book_open, bind, lift, emit, ret in Hbook.
    repeat case_match; simplify_eq;
      rewrite ?quit_count_snoc, ?start_count_snoc; cbn; split; lia. }
  unfold bind at 1.
  destruct (engine_start w sf tr1) as [[[] | e] tr2] eqn:Hstart; [ | discriminate ].
  assert (Htr2 : quit_count tr2 = quit_count tr1 /\ start_count tr2 = S (start_count tr1)).
  { unfold engine_start, bind, lift, emit in Hstart.
    repeat case_match; simplify_eq;
      rewrite ?quit_count_snoc, ?start_count_snoc; cbn; split; lia. }
  unfold bind at 1.
  destruct (move_loop w depth br (mainline_moves game) initial_acc tr2)
    as [[st | e] tr3] eqn:Hloop; [ | discriminate ].
  destruct (move_loop_trace _ _ _ _ _ _ _ _ Hloop) as [Hq3 Hs3].
  destruct (move_loop_inv _ _ _ _ _ _ _ _ loop_invariant_initial Hloop) as [Hinv Hn].
  unfold bind at 1.
  destruct (engine_quit w tr3) as [[[] | e] tr4] eqn:Hquit; [ | discriminate ].
  assert (Htr4 : quit_count tr4 = S (quit_count tr3) /\ start_count tr4 = start_count tr3).
  { unfold engine_quit, bind, lift, emit in Hquit.
    repeat case_match; simplify_eq;
      rewrite ?quit_count_snoc, ?start_count_snoc; cbn; split; lia. }
  unfold bind at 1.
  match goal with |- context [match ?c tr4 with _ => _ end] =>
    destruct (c tr4) as [[[] | e] tr5] eqn:Hclose end; [ | discriminate ].
  assert (Htr5 : quit_count tr5 = quit_count tr4 /\ start_count tr5 = start_count tr4).
  { unfold book_close, bind, lift, emit, ret in Hclose.
    repeat case_match; simplify_eq;
      rewrite ?quit_count_snoc, ?start_count_snoc; cbn; split; lia. }
  unfold lift. intros [= Hemit <-].
  exists elos, tcl, st.
  split_and!; try assumption; try reflexivity; lia.
Qed.

Lemma analyse_game_body_loaded (w : World) (name sf : string) (depth : Z)
  (book_path : option string) (game : Game) :
  read_game w = Ok (Some game) ->
  analyse_game_body w name sf depth book_path []
  = analyse_loaded_game w name sf depth book_path game [].
Proof. intros Hread. unfold analyse_game_body, bind, lift. rewrite Hread. reflexivity. Qed.

(** The record of a completed analysis, field by field. *)
Lemma completed_stats (w : World) (name sf : string) (depth : Z)
  (book_path : option string) (game : Game) (stats : GameStats) (tr : list Event) :
  read_game w = Ok (Some game) ->
  analyse_game_body w name sf depth book_path [] = (Ok stats, tr) ->
  filename stats = name
  /\ parse_elos (get (headers game) "WhiteElo" "0") (get (headers game) "BlackElo" "0")
     = Ok (white_elo stats, black_elo stats)
  /\ white_columns stats = white_total_moves stats
  /\ black_columns stats = black_total_moves stats
  /\ white_total_moves stats = (len (mainline_moves game) + 1) / 2
  /\ black_total_moves stats = len (mainline_moves game) / 2
  /\ quit_count tr = 1%nat
  /\ start_count tr = 1%nat.
Proof.
  intros Hread Hrun. rewrite (analyse_game_body_loaded _ _ _ _ _ _ Hread) in Hrun.
  destruct (analyse_loaded_game_ok _ _ _ _ _ _ _ _ _ Hrun)
    as (elos & tcl & st & Helos & _ & Hinv & Hn & Hemit & Hq & Hs).
  destruct Hinv as [Hwc Hbc Hw Hb Hpos Hwp Hbp].
  rewrite (emit_stats_ok _ _ _ _ _ _ _ _ st Hwc Hbc) in Hemit.
  injection Hemit as <-. unfold white_columns, black_columns. cbn.
  unfold classified in Hw, Hb. rewrite Hn in Hwp, Hbp.
  split_and!; try reflexivity; try lia; try assumption.
  rewrite Helos. destruct elos. reflexivity.
Qed.

(** C6: in the record of a completed analysis, for each colour, the five
    classification counts and the book count add up to the total, and the
    total is the number of plies that colour played. *)
Theorem counts_add_up_to_total_moves (w : World) (name sf : string) (depth : Z)
  (book_path : option string) (game : Game) (stats : GameStats) (tr : list Event) :
  read_game w = Ok (Some game) ->
  analyse_game_body w name sf depth book_path [] = (Ok stats, tr) ->
  white_best_moves stats + white_good_moves stats + white_inaccuracies stats
  + white_mistakes stats + white_blunders stats + white_book_moves stats
  = white_total_moves stats
  /\ black_best_moves stats + black_good_moves stats + black_inaccuracies stats
     + black_mistakes stats + black_blunders stats + black_book_moves stats
     = black_total_moves stats
  /\ white_total_moves stats = (len (mainline_moves game) + 1) / 2
  /\ black_total_moves stats = len (mainline_moves game) / 2.
Proof.
  intros Hread Hrun.
  destruct (completed_stats _ _ _ _ _ _ _ _ Hread Hrun)
    as (_ & _ & Hw & Hb & Hwt & Hbt & _).
  unfold white_columns in Hw. unfold black_columns in Hb. auto.
Qed.

Lemma counts_add_up_to_total_moves_witness :
  exists stats tr,
    analyse_game_body sample_world "game.pgn" "stockfish" 18 None [] = (Ok stats, tr)
    /\ white_best_moves stats + white_good_moves stats + white_inaccuracies stats
       + white_mistakes stats + white_blunders stats + white_book_moves stats
       = white_total_moves stats
    /\ black_best_moves stats + black_good_moves stats + black_inaccuracies stats
       + black_mistakes stats + black_blunders stats + black_book_moves stats
       = black_total_moves stats
    /\ white_total_moves stats = 1
    /\ black_total_moves stats = 1.
Proof.
  destruct (analyse_game_body sample_world "game.pgn" "stockfish" 18 None [])
    as [[stats | e] tr] eqn:Hrun.
  - exists stats, tr. split; [ reflexivity | ].
    exact (counts_add_up_to_total_moves sample_world "game.pgn" "stockfish" 18 None
             sample_game stats tr eq_refl Hrun).
  - exfalso.
    assert (Hok : is_ok (fst (analyse_game_body sample_world "game.pgn" "stockfish"
                                18 None [])) = true)
      by (vm_compute; reflexivity).
    rewrite Hrun in Hok. discriminate Hok.
Defined.

(** The same sums hold for the placeholder, hence for every record
    [analyse_game] returns. *)
Lemma returned_counts_add_up (w : World) (name sf : string) (depth : Z)
  (book_path : option string) :
  let stats := fst (analyse_game w name sf depth book_path) in
  white_columns stats = white_total_moves stats
  /\ black_columns stats = black_total_moves stats.
Proof.
  unfold analyse_game.
  destruct (analyse_game_body w name sf depth book_path []) as [[stats | e] tr] eqn:Hrun;
    cbn; [ | split; reflexivity ].
  unfold analyse_game_body, bind, lift in Hrun.
  destruct (read_game w) as [[game |] | e] eqn:Hread; [ | | discriminate ].
  - assert (Hbody : analyse_game_body w name sf depth book_path [] = (Ok stats, tr)).
    { rewrite (analyse_game_body_loaded _ _ _ _ _ _ Hread). exact Hrun. }
    destruct (completed_stats _ _ _ _ _ _ _ _ Hread Hbody) as (_ & _ & Hw & Hb & _).
    auto.
  - unfold ret in Hrun. injection Hrun as <- <-. split; reflexivity.
Qed.

(** ** Rating headers *)

Lemma int_raises_ValueError (s : string) (e : Exn) : int s = Raise e -> e = ValueError.
Proof. unfold int. intros H. repeat case_match; simplify_eq; reflexivity. Qed.






(** ** Failure isolation and the engine session *)

(** Every record [analyse_game] returns carries the name of its file. *)
Lemma analyse_game_filename (w : World) (name sf : string) (depth : Z)
  (book_path : option string) :
  filename (fst (analyse_game w name sf depth book_path)) = name.
Proof.
  unfold analyse_game.
  destruct (analyse_game_body w name sf depth book_path []) as [[stats | e] tr] eqn:Hrun;
    [ | reflexivity ].
  cbn. unfold analyse_game_body, bind, lift in Hrun.
  destruct (read_game w) as [[game |] | e] eqn:Hread; [ | | discriminate ].
  - assert (Hbody : analyse_game_body w name sf depth book_path [] = (Ok stats, tr)).
    { rewrite (analyse_game_body_loaded _ _ _ _ _ _ Hread). exact Hrun. }
    apply (completed_stats _ _ _ _ _ _ _ _ Hread Hbody).
  - unfold ret in Hrun. injection Hrun as <- <-. reflexivity.
Qed.



(** A completed analysis started the engine once and stopped it once. *)
Lemma engine_stopped_once_when_completed (w : World) (name sf : string) (depth : Z)
  (book_path : option string) (game : Game) (stats : GameStats) (tr : list Event) :
  read_game w = Ok (Some game) ->
  analyse_game_body w name sf depth book_path [] = (Ok stats, tr) ->
  start_count (snd (analyse_game w name sf depth book_path)) = 1%nat
  /\ quit_count (snd (analyse_game w name sf depth book_path)) = 1%nat.
Proof.
  intros Hread Hrun.
  destruct (completed_stats _ _ _ _ _ _ _ _ Hread Hrun) as (_ & _ & _ & _ & _ & _ & Hq & Hs).
  unfold analyse_game. rewrite Hrun. cbn. auto.
Qed.

(** A failed analysis that had started the engine never stops it, unless
    the failure is that of the teardown itself: [engine.quit()] is not
    reached when the move loop raises. *)
Lemma engine_not_stopped_when_failed (w : World) (name sf : string) (depth : Z)
  (book_path : option string) (e : Exn) (tr : list Event) :
  quit w = Ok tt ->
  close w = Ok tt ->
  analyse_game_body w name sf depth book_path [] = (Raise e, tr) ->
  start_count tr = 1%nat ->
  start_count (snd (analyse_game w name sf depth book_path)) = 1%nat
  /\ quit_count (snd (analyse_game w name sf depth book_path)) = 0%nat.
Proof.
  intros Hquit Hclose Hrun Hstarted.
  unfold analyse_game. rewrite Hrun. cbn [fst snd].
  rewrite quit_count_snoc, start_count_snoc. cbn [is_quit is_started].
  split; [ lia | ].
  rewrite Nat.add_0_r.
  revert Hrun. unfold analyse_game_body. unfold bind at 1. unfold lift at 1.
  destruct (read_game w) as [[game |] | e0];
    [ | intros [= <- <-]; discriminate Hstarted
      | intros [= <- <-]; discriminate Hstarted ].
  unfold analyse_loaded_game. unfold bind at 1. unfold lift at 1.
  destruct (parse_elos _ _) as [elos | e0];
    [ | intros [= <- <-]; discriminate Hstarted ].
  unfold bind at 1. unfold lift at 1.
  destruct (parse_time_control _) as [tcl | e0];
    [ | intros [= <- <-]; discriminate Hstarted ].
  unfold bind at 1.
  match goal with |- context [match ?c [] with _ => _ end] =>
    destruct (c []) as [[br | e0] tr1] eqn:Hbook end.
  2: { intros [= <- <-]. exfalso.
       unfold book_open, bind, lift, emit, ret in Hbook.
       repeat case_match; simplify_eq; discriminate Hstarted. }
  assert (Htr1 : quit_count tr1 = 0%nat /\ start_count tr1 = 0%nat).
  { unfold book_open, bind, lift, emit, ret in Hbook.
    repeat case_match; simplify_eq; split; reflexivity. }
  unfold bind at 1.
  destruct (engine_start w sf tr1) as [[[] | e0] tr2] eqn:Hstart.
  2: { intros [= <- <-]. exfalso.
       unfold engine_start, bind, lift, emit in Hstart.
       repeat case_match; simplify_eq; lia. }
  assert (Htr2 : quit_count tr2 = 0%nat).
  { unfold engine_start, bind, lift, emit in Hstart.
    repeat case_match; simplify_eq; rewrite quit_count_snoc; cbn; lia. }
  unfold bind at 1.
  destruct (move_loop w depth br (mainline_moves game) initial_acc tr2)
    as [[st | e0] tr3] eqn:Hloop.
  2: { intros [= <- <-].
       destruct (move_loop_trace _ _ _ _ _ _ _ _ Hloop) as [Hq3 _]. lia. }
  destruct (move_loop_inv _ _ _ _ _ _ _ _ loop_invariant_initial Hloop) as [Hinv _].
  intros Hrest. exfalso. revert Hrest.
  unfold bind, engine_quit, book_close, emit, lift, ret.
  rewrite Hquit, Hclose.
  rewrite (emit_stats_ok _ _ _ _ _ _ _ _ st
             (inv_white_classes _ Hinv) (inv_black_classes _ Hinv)).
  destruct (br && book_truthy w); discriminate.
Qed.

(** C3 fails on the code: the engine dies on its second request, the
    placeholder is returned, and the trace of the call holds the start of
    the engine process but no [engine.quit()]. *)
Theorem engine_left_running_after_crash :
  fst (analyse_game crashing_world "game.pgn" "stockfish" 18 None)
  = placeholder "game.pgn"
  /\ snd (analyse_game crashing_world "game.pgn" "stockfish" 18 None)
     = [ EngineStarted; EngineAnalyse [] 18; EngineAnalyse ["e2e4"] 18;
         Diagnostic "game.pgn" (OtherError "engine process died unexpectedly") ]
  /\ start_count (snd (analyse_game crashing_world "game.pgn" "stockfish" 18 None)) = 1%nat
  /\ quit_count (snd (analyse_game crashing_world "game.pgn" "stockfish" 18 None)) = 0%nat.
Proof. vm_compute. repeat split. Qed.

End GamePipeline.

(** ** The resumable batch *)

Section ResumableBatch.

Lemma append_cons (c : ascii) (a b : string) : String c a +:+ b = String c (a +:+ b).
Proof. reflexivity. Qed.

Lemma append_nil_l (b : string) : "" +:+ b = b.
Proof. reflexivity. Qed.

Lemma append_assoc (a b c : string) : (a +:+ b) +:+ c = a +:+ (b +:+ c).
Proof.
  induction a as [| x a IH]; [ reflexivity | ].
  rewrite !append_cons, IH. reflexivity.
Qed.




(** Text that ends a line splits the reading in two. *)
Lemma readlines_app (a b : string) : forall cur after_cr,
  (after_cr = true -> cur = []) ->
  readlines ((a +:+ newline) +:+ b) cur after_cr
  = readlines (a +:+ newline) cur after_cr ++ readlines b [] false.
Proof.
  induction a as [| c a IH]; intros cur after_cr Hcr.
  - cbn. change (Ascii.eqb lf lf) with true. cbn.
    destruct after_cr.
    + rewrite (Hcr eq_refl). reflexivity.
    + reflexivity.
  - rewrite !append_cons. cbn [readlines].
    destruct (Ascii.eqb c lf); [ destruct after_cr | destruct (Ascii.eqb c cr) ].
    + apply IH. discriminate.
    + cbn [app]. f_equal. apply IH. discriminate.
    + cbn [app]. f_equal. apply IH. reflexivity.
    + apply IH. discriminate.
Qed.

Lemma readlines_newline_nonempty (a : string) : forall cur,
  readlines (a +:+ newline) cur false <> [].
Proof.
  induction a as [| c a IH]; intros cur.
  - cbn. change (Ascii.eqb lf lf) with true. discriminate.
  - rewrite append_cons. cbn [readlines].
    destruct (Ascii.eqb c lf); [ discriminate | ].
    destruct (Ascii.eqb c cr); [ discriminate | ].
    apply IH.
Qed.

Lemma split_first_app (name rest : string) :
  contains tab name = false ->
  split_first tab (name +:+ String tab rest) = name.
Proof.
  induction name as [| c name IH]; intros Htab.
  - cbn. change (Ascii.eqb tab tab) with true. reflexivity.
  - cbn [contains] in Htab. apply orb_false_iff in Htab as [Hc Htab].
    rewrite append_cons. cbn [split_first]. rewrite Hc, (IH Htab). reflexivity.
Qed.

Lemma contains_app (c : ascii) (a b : string) :
  contains c (a +:+ b) = contains c a || contains c b.
Proof.
  induction a as [| x a IH]; [ reflexivity | ].
  rewrite append_cons. cbn [contains]. rewrite IH. apply orb_assoc.
Qed.

Lemma plain_name_spec (name : string) :
  plain_name name = true ->
  strip name = name /\ contains tab name = false
  /\ contains lf name = false /\ contains cr name = false.
Proof.
  unfold plain_name. rewrite !andb_true_iff, !negb_true_iff.
  intros [[[Hs Ht] Hl] Hc]. apply String.eqb_eq in Hs. auto.
Qed.


Lemma format_row_shape (rt : Runtime) (stats : GameStats) :
  exists rest, format_row rt stats = (filename stats +:+ String tab rest) +:+ newline.
Proof. unfold format_row, join_tab. cbn [String.concat]. eexists. reflexivity. Qed.


Lemma add_line_elem (processed : gset string) (line name : string) :
  name ∈ add_line processed line
  <-> name ∈ processed
      \/ (strip (split_first tab line) = name /\ is_empty name = false).
Proof.
  unfold add_line.
  destruct (is_empty (strip (split_first tab line))) eqn:He.
  - split; [ auto | ]. intros [H | [<- H]]; [ exact H | congruence ].
  - rewrite elem_of_union, elem_of_singleton. split.
    + intros [-> | H]; auto.
    + intros [H | [<- _]]; auto.
Qed.

Lemma fold_add_line_elem (lines : list string) : forall (processed : gset string) name,
  name ∈ fold_left add_line lines processed
  <-> name ∈ processed
      \/ exists line, line ∈ lines
           /\ strip (split_first tab line) = name /\ is_empty name = false.
Proof.
  induction lines as [| l lines IH]; intros processed name; cbn [fold_left].
  - split; [ auto | ]. intros [H | (line & Hin & _)]; [ exact H | ].
    by apply elem_of_nil in Hin.
  - rewrite IH, add_line_elem. split.
    + intros [[H | H] | (line & Hin & H)]; [ auto | | ].
      * right. exists l. split; [ apply list_elem_of_here | exact H ].
      * right. exists line. split; [ by apply list_elem_of_further | exact H ].
    + intros [H | (line & Hin & H)]; [ auto | ].
      apply elem_of_cons in Hin as [-> | Hin]; [ auto | ].
      right. exists line. auto.
Qed.

Lemma fold_rows (rt : Runtime) (results : list GameStats) : forall content,
  fold_left (fun content stats => append_row content (format_row rt stats)) results content
  = content +:+ rows_text rt results.
Proof.
  induction results as [| stats results IH]; intros content; cbn [fold_left rows_text fold_right].
  - induction content as [| c content IHc]; [ reflexivity | ].
    rewrite append_cons, <- IHc. reflexivity.
  - rewrite IH. unfold append_row. apply append_assoc.
Qed.


Lemma append_nil_r (a : string) : a +:+ "" = a.
Proof.
  induction a as [| c a IH]; [ reflexivity | ]. rewrite append_cons, IH. reflexivity.
Qed.

Lemma discover_elem (pgn_dir : gset string) (name : string) :
  name ∈ discover pgn_dir <-> name ∈ pgn_dir /\ is_pgn name = true.
Proof.
  unfold discover.
  rewrite merge_sort_Permutation, list_elem_of_filter, elem_of_elements. tauto.
Qed.

Lemma discover_NoDup (pgn_dir : gset string) : NoDup (discover pgn_dir).
Proof.
  unfold discover. rewrite merge_sort_Permutation.
  apply NoDup_filter, NoDup_elements.
Qed.


(** [analyse_all_games] in one equation. *)
Lemma analyse_all_games_eq (rt : Runtime) (pgn_dir : gset string) (sf : string)
  (output_file : option string) (depth : Z) (book_path : option string) :
  analyse_all_games rt pgn_dir sf output_file depth book_path
  = match remaining pgn_dir output_file with
    | [] => (output_file, [])
    | pgn_files =>
        let results :=
          map (analyse_game_wrapper rt sf depth (worker_book rt book_path))
              (imap_unordered rt pgn_files) in
        (Some (opened output_file +:+ rows_text rt results), results)
    end.
Proof.
  unfold analyse_all_games, remaining.
  destruct (discover pgn_dir) as [| f all]; [ reflexivity | ].
  destruct (filter _ (f :: all)) as [| g pgn_files]; [ reflexivity | ].
  cbv zeta. rewrite fold_rows. reflexivity.
Qed.

Lemma opened_ends_line (output_file : option string) :
  ends_line output_file -> exists body, opened output_file = body +:+ newline.
Proof.
  destruct output_file as [content |]; intros H; [ exact H | ].
  cbn. unfold header_row. eexists. reflexivity.
Qed.

Lemma load_opened (output_file : option string) :
  load_processed_files (Some (opened output_file)) = load_processed_files output_file.
Proof.
  destruct output_file as [content |]; [ reflexivity | ]. vm_compute. reflexivity.
Qed.

(** Reading the output file after rows were appended to it. *)
Lemma load_appended (output_file : option string) (text : string) :
  ends_line output_file ->
  load_processed_files (Some (opened output_file +:+ text))
  = fold_left add_line (readlines text [] false) (load_processed_files output_file).
Proof.
  intros Hend. rewrite <- (load_opened output_file).
  destruct (opened_ends_line _ Hend) as [body ->].
  unfold load_processed_files. rewrite readlines_app by discriminate.
  destruct (readlines (body +:+ newline) [] false) as [| h ls] eqn:Hlines.
  - exfalso. revert Hlines. apply readlines_newline_nonempty.
  - cbn [app]. apply fold_left_app.
Qed.

Lemma filter_none {A} (P : A -> Prop) `{forall x, Decision (P x)} (l : list A) :
  (forall x, x ∈ l -> ~ P x) -> filter P l = [].
Proof.
  intros Hnone. destruct (filter P l) as [| x k] eqn:Hf; [ reflexivity | ].
  assert (Hx : x ∈ filter P l) by (rewrite Hf; apply list_elem_of_here).
  apply list_elem_of_filter in Hx as [HP Hin]. destruct (Hnone x Hin HP).
Qed.

Lemma wrapper_filenames (rt : Runtime) (sf : string) (depth : Z)
  (book_path : option string) (names : list string) :
  map filename (map (analyse_game_wrapper rt sf depth book_path) names) = names.
Proof.
  induction names as [| n names IH]; [ reflexivity | ].
  cbn [map]. rewrite IH. unfold analyse_game_wrapper at 1.
  rewrite analyse_game_filename. reflexivity.
Qed.





End ResumableBatch.

Import Vocabulary.

(** ** More on the accuracy curves *)

Section MoreAccuracy.
Import Accuracy.
Local Open Scope R_scope.


Lemma clamp_bounds (x : R) : 0 <= Rmax 0 (Rmin 100 x) <= 100.
Proof.
  split; [ apply Rmax_l | ].
  apply Rmax_lub; [ lra | apply Rmin_l ].
Qed.

Lemma clamp_monotone (x y : R) : x <= y -> Rmax 0 (Rmin 100 x) <= Rmax 0 (Rmin 100 y).
Proof.
  intros Hxy. unfold Rmax, Rmin.
  repeat destruct (Rle_dec _ _); lra.
Qed.

(** X2: [calculate_move_accuracy] always lies in [0, 100] and depends on
    the loss [before - after] only, never increasing with it: a move that
    loses no more win percentage than another is at least as accurate. *)
Theorem move_accuracy_range_and_order (before after before' after' : R) :
  before - after <= before' - after' ->
  0 <= calculate_move_accuracy before after <= 100
  /\ calculate_move_accuracy before' after' <= calculate_move_accuracy before after.
Proof.
  intros Hloss. split; [ apply clamp_bounds | ].
  unfold calculate_move_accuracy. apply clamp_monotone.
  assert (Hexp : exp (- 0.04354 * (before' - after')) <= exp (- 0.04354 * (before - after))).
  { destruct (Req_dec (before - after) (before' - after')) as [-> | Hne].
    - right. reflexivity.
    - left. apply exp_increasing. lra. }
  lra.
Qed.

Lemma move_accuracy_range_and_order_witness :
  0 <= calculate_move_accuracy 60 50 <= 100
  /\ calculate_move_accuracy 60 40 <= calculate_move_accuracy 60 50.
Proof. apply (move_accuracy_range_and_order 60 50 60 40). lra. Defined.

Lemma exp_3_7009 : 33 <= exp 3.7009.
Proof.
  pose proof (exp_ineq1_le (3.7009 / 32)) as H1.
  assert (H2 : 1.2446 <= exp (3.7009 / 16)).
  { replace (3.7009 / 16) with (3.7009 / 32 + 3.7009 / 32) by lra.
    rewrite exp_plus. nra. }
  assert (H4 : 1.549 <= exp (3.7009 / 8)).
  { replace (3.7009 / 8) with (3.7009 / 16 + 3.7009 / 16) by lra.
    rewrite exp_plus. nra. }
  assert (H8 : 2.399 <= exp (3.7009 / 4)).
  { replace (3.7009 / 4) with (3.7009 / 8 + 3.7009 / 8) by lra.
    rewrite exp_plus. nra. }
  assert (H16 : 5.755 <= exp (3.7009 / 2)).
  { replace (3.7009 / 2) with (3.7009 / 4 + 3.7009 / 4) by lra.
    rewrite exp_plus. nra. }
  replace 3.7009 with (3.7009 / 2 + 3.7009 / 2) by lra.
  rewrite exp_plus. nra.
Qed.

(** X3: the lower clamp is reached: a move that loses 85 points of win
    percentage or more has accuracy exactly 0. *)
Theorem move_accuracy_zero_for_large_loss (before after : R) :
  85 <= before - after ->
  calculate_move_accuracy before after = 0.
Proof.
  intros Hloss. unfold calculate_move_accuracy.
  assert (Hexp : exp (- 0.04354 * (before - after)) <= / 33).
  { apply Rle_trans with (exp (Ropp 3.7009)).
    - destruct (Req_dec (before - after) 85) as [-> | Hne].
      + right. f_equal. lra.
      + left. apply exp_increasing. lra.
    - rewrite exp_Ropp. apply Rinv_le_contravar; [ lra | apply exp_3_7009 ]. }
  assert (Hneg : 103.1668 * exp (- 0.04354 * (before - after)) - 3.1669 <= 0) by lra.
  rewrite Rmin_right by lra. apply Rmax_left, Hneg.
Qed.

Lemma move_accuracy_zero_for_large_loss_witness :
  85 <= 95 - 5 /\ calculate_move_accuracy 95 5 = 0.
Proof.
  assert (H : 85 <= 95 - 5) by lra.
  split; [ exact H | apply (move_accuracy_zero_for_large_loss 95 5 H) ].
Defined.

Lemma pair_accuracy_bounds (p : Z * Z) : 0 <= pair_accuracy p <= 100.
Proof. destruct p as [b a]. apply clamp_bounds. Qed.

Lemma Rsum_bounds (l : list R) :
  Forall (fun x => 0 <= x <= 100) l -> 0 <= Rsum l <= 100 * INR (length l).
Proof.
  induction 1 as [| x l Hx _ IH].
  - cbn. lra.
  - change (Rsum (x :: l)) with (x + Rsum l).
    change (length (x :: l)) with (S (length l)). rewrite S_INR. lra.
Qed.


Lemma calculate_accuracy_bounds (eval_pairs : list (Z * Z)) :
  0 <= calculate_accuracy eval_pairs <= 100.
Proof.
  unfold calculate_accuracy. destruct eval_pairs as [| p l]; [ lra | ].
  set (accs := map pair_accuracy (p :: l)).
  assert (Hall : Forall (fun x => 0 <= x <= 100) accs).
  { unfold accs. apply Forall_forall. intros x Hx.
    apply list_elem_of_fmap in Hx as (q & -> & _). apply pair_accuracy_bounds. }
  pose proof (Rsum_bounds accs Hall) as [Hlo Hhi].
  assert (Hlen : 0 < INR (length accs)).
  { unfold accs. cbn [map length]. apply lt_0_INR. lia. }
  split.
  - apply Rmult_le_pos; [ exact Hlo | left; apply Rinv_0_lt_compat, Hlen ].
  - apply (Rmult_le_reg_r (INR (length accs))); [ exact Hlen | ].
    unfold Rdiv. rewrite Rmult_assoc, Rinv_l by lra. lra.
Qed.


Lemma floor_spec (x : R) : IZR (floor x) <= x < IZR (floor x) + 1.
Proof.
  unfold floor. rewrite minus_IZR. destruct (archimed x) as [H1 H2]. lra.
Qed.

Lemma round_half_even_near (x : R) :
  IZR (round_half_even x) - 1 / 2 <= x <= IZR (round_half_even x) + 1 / 2.
Proof.
  unfold round_half_even. pose proof (floor_spec x) as [Hlo Hhi].
  destruct (Rlt_dec (x - IZR (floor x)) (1 / 2)) as [Hd | Hd]; [ lra | ].
  destruct (Rlt_dec (1 / 2) (x - IZR (floor x))) as [Hu | Hu].
  - rewrite plus_IZR. lra.
  - destruct (Z.even (floor x)); [ lra | rewrite plus_IZR; lra ].
Qed.

Lemma round1_bounds (x : R) :
  0 <= x <= 100 -> 0 <= round1 x <= 100 /\ Rabs (round1 x - x) <= 0.05.
Proof.
  intros [H0 H100]. unfold round1.
  pose proof (round_half_even_near (x * 10)) as [Hlo Hhi].
  set (n := round_half_even (x * 10)) in *.
  assert (Hn0 : (0 <= n)%Z).
  { apply le_IZR. destruct (Z_le_gt_dec 0 n) as [H | H]; [ apply IZR_le, H | ].
    exfalso. assert (Hn : (n <= -1)%Z) by lia. apply IZR_le in Hn. lra. }
  assert (Hn1 : (n <= 1000)%Z).
  { destruct (Z_le_gt_dec n 1000) as [H | H]; [ exact H | ].
    exfalso. assert (Hn : (1001 <= n)%Z) by lia. apply IZR_le in Hn. lra. }
  apply IZR_le in Hn0, Hn1.
  split; [ lra | ]. apply Rabs_le. lra.
Qed.
End MoreAccuracy.

(** ** More on scores and headers *)

Section MoreScores.

Lemma white_of_negated (p : PovScore) :
  white {| relative := neg (relative p); turn := turn p |} = neg (white p).
Proof. unfold white. cbn. destruct (turn p); reflexivity. Qed.

Lemma score_neg (s : Score) (m : Z) :
  score (neg s) (Some m) = Z.opp <$> score s (Some m).
Proof.
  destruct s as [c | n |]; cbn.
  - reflexivity.
  - destruct (Z.eqb_spec n 0) as [-> | Hn]; cbn.
    + f_equal. lia.
    + destruct (Z.ltb_spec 0 n), (Z.ltb_spec 0 (- n)); cbn; f_equal; lia.
  - f_equal. lia.
Qed.

(** X5: negating the engine's score negates both evaluations, with one
    exception: for a mate distance of 0 the evaluation before a move is
    -10000 for the score and for its negation. *)
Theorem evaluation_of_negated_score (p : PovScore) :
  let q := {| relative := neg (relative p); turn := turn p |} in
  eval_after_centipawns q = Z.opp <$> eval_after_centipawns p
  /\ (mate (white p) <> Some 0 ->
      get_eval_centipawns q = Z.opp <$> get_eval_centipawns p)
  /\ (mate (white p) = Some 0 ->
      get_eval_centipawns p = Some (-10000) /\ get_eval_centipawns q = Some (-10000)).
Proof.
  intros q. unfold eval_after_centipawns, get_eval_centipawns.
  unfold q. rewrite white_of_negated.
  split; [ apply score_neg | ].
  destruct (white p) as [c | n |]; cbn.
  - split; [ reflexivity | discriminate ].
  - destruct (Z.eqb_spec n 0) as [-> | Hn]; cbn.
    + split; [ intros H; contradiction | auto ].
    + split.
      * intros _. f_equal.
        destruct (Z.ltb_spec 0 n), (Z.ltb_spec 0 (- n)); lia.
      * intros [= H]. contradiction.
  - split; [ intros H; contradiction | auto ].
Qed.

(** X6: inside a forced mate for White, from mate in [n] before the move
    to mate in [m] after it, the two scales meet: White's move has loss 0
    and is "best" whenever [m <= 50 n], even if the mate got longer, and
    Black's move has loss [50 n - m], a "blunder" from [n = 3] on, even
    though the mate was forced. *)
Theorem mate_sequence_classification (before after : PovScore) (n m : Z) :
  white before = Mate n ->
  white after = Mate m ->
  0 < n -> 0 < m ->
  get_eval_centipawns before = Some (10000 - 50 * n)
  /\ eval_after_centipawns after = Some (10000 - m)
  /\ (m <= 50 * n ->
      eval_loss_of true (10000 - 50 * n) (10000 - m) = 0
      /\ classify_move (eval_loss_of true (10000 - 50 * n) (10000 - m)) = "best")
  /\ (m <= n ->
      eval_loss_of false (10000 - 50 * n) (10000 - m) = 50 * n - m
      /\ (3 <= n ->
          classify_move (eval_loss_of false (10000 - 50 * n) (10000 - m)) = "blunder")).
Proof.
  intros Hb Ha Hn Hm. split_and!.
  - rewrite (get_eval_of_mate _ _ Hb), convert_mate_some.
    destruct (Z.ltb_spec 0 n); [ | lia ]. f_equal. lia.
  - rewrite (eval_after_of_mate _ _ Ha).
    destruct (Z.ltb_spec 0 m); [ reflexivity | lia ].
  - intros Hle. assert (H0 : eval_loss_of true (10000 - 50 * n) (10000 - m) = 0)
      by (unfold eval_loss_of; lia).
    split; [ exact H0 | rewrite H0; reflexivity ].
  - intros Hle. assert (Hl : eval_loss_of false (10000 - 50 * n) (10000 - m) = 50 * n - m)
      by (unfold eval_loss_of; lia).
    split; [ exact Hl | ]. intros H3. rewrite Hl.
    apply classify_move_table. lia.
Qed.

Lemma mate_sequence_classification_witness :
  get_eval_centipawns {| relative := Mate 3; turn := White |} = Some (10000 - 50 * 3)
  /\ eval_after_centipawns {| relative := Mate (-3); turn := Black |} = Some (10000 - 3)
  /\ (3 <= 50 * 3 ->
      eval_loss_of true (10000 - 50 * 3) (10000 - 3) = 0
      /\ classify_move (eval_loss_of true (10000 - 50 * 3) (10000 - 3)) = "best")
  /\ (3 <= 3 ->
      eval_loss_of false (10000 - 50 * 3) (10000 - 3) = 50 * 3 - 3
      /\ (3 <= 3 ->
          classify_move (eval_loss_of false (10000 - 50 * 3) (10000 - 3)) = "blunder")).
Proof.
  apply (mate_sequence_classification
           {| relative := Mate 3; turn := White |}
           {| relative := Mate (-3); turn := Black |} 3 3);
    [ reflexivity | reflexivity | lia | lia ].
Defined.

End MoreScores.

Section MoreHeaders.

Lemma int_total (s : string) : (exists n, int s = Ok n) \/ int s = Raise ValueError.
Proof.
  destruct (int s) as [n | e] eqn:H; [ eauto | ].
  right. rewrite (int_raises_ValueError _ _ H). reflexivity.
Qed.

(** X7: the time control header never makes the analysis fail and always
    yields one of six classes: "unknown" for an empty header or "-",
    "daily" as soon as the header holds a slash, and "unknown" when the
    text before the first plus sign is not an integer. *)
Theorem time_control_never_fails (tc : string) :
  (exists c, parse_time_control tc = Ok c /\ c ∈ time_classes)
  /\ (tc = "" \/ tc = "-" -> parse_time_control tc = Ok "unknown")
  /\ (tc <> "" -> tc <> "-" -> contains "/" tc = true ->
      parse_time_control tc = Ok "daily")
  /\ (contains "/" tc = false -> int (split_first "+" tc) = Raise ValueError ->
      parse_time_control tc = Ok "unknown").
Proof.
  assert (Hguard : tc <> "" -> tc <> "-" ->
            negb (is_empty tc) && negb (String.eqb tc "-") = true).
  { intros H1 H2. destruct tc; [ contradiction | ].
    apply String.eqb_neq in H2. rewrite H2. reflexivity. }
  split_and!.
  - unfold parse_time_control, try_except, res_bind, time_classes.
    destruct (negb (is_empty tc) && negb (String.eqb tc "-")); [ | eexists; split; [ reflexivity | set_solver ] ].
    destruct (contains "/" tc); [ eexists; split; [ reflexivity | set_solver ] | ].
    destruct (int_total (split_first "+" tc)) as [[n ->] | ->].
    + repeat case_match; simplify_eq; eexists; (split; [ reflexivity | set_solver ]).
    + eexists; split; [ reflexivity | set_solver ].
  - intros [-> | ->]; reflexivity.
  - intros H1 H2 Hs. unfold parse_time_control. rewrite (Hguard H1 H2), Hs. reflexivity.
  - intros Hs Hint. unfold parse_time_control.
    destruct (negb (is_empty tc) && negb (String.eqb tc "-")); [ | reflexivity ].
    rewrite Hs, Hint. reflexivity.
Qed.





End MoreHeaders.

(** ** The opening book and the engine requests *)

Section MoreMoveLoop.

Lemma existsb_eqb_elem (move : Move) (entries : list Move) :
  existsb (String.eqb move) entries = true <-> move ∈ entries.
Proof.
  rewrite existsb_exists. split.
  - intros (x & Hin & Heq). apply String.eqb_eq in Heq. subst x.
    apply list_elem_of_In. exact Hin.
  - intros Hin. exists move. split; [ apply list_elem_of_In, Hin | apply String.eqb_refl ].
Qed.

(** X9: a move the opening book lists for the position is counted as a
    book move of its colour and pushed on the board; the engine is not
    asked (the trace is unchanged) and neither the classification counters
    nor the evaluation pairs change. *)
Theorem book_move_skips_engine (w : World) (depth : Z) (st : Acc) (move : Move)
  (tr : list Event) (entries : list Move) (ending : option Exn) :
  book_truthy w = true ->
  find_all w (board st) = (entries, ending) ->
  move ∈ entries ->
  exists st',
    analyse_move w depth true st move tr = (Ok st', tr)
    /\ white_classifications st' = white_classifications st
    /\ black_classifications st' = black_classifications st
    /\ white_eval_pairs st' = white_eval_pairs st
    /\ black_eval_pairs st' = black_eval_pairs st
    /\ board st' = board st ++ [move]
    /\ move_number st' = move_number st + 1
    /\ (if (move_number st + 1) mod 2 =? 1
        then acc_white_book_moves st' = acc_white_book_moves st + 1
             /\ acc_black_book_moves st' = acc_black_book_moves st
        else acc_white_book_moves st' = acc_white_book_moves st
             /\ acc_black_book_moves st' = acc_black_book_moves st + 1).
Proof.
  intros Htruthy Hfind Hin.
  assert (Hbook : book_has_move w (board st) move = Ok true).
  { unfold book_has_move. rewrite Hfind.
    apply existsb_eqb_elem in Hin. rewrite Hin. reflexivity. }
  eexists. split.
  - unfold analyse_move, bind, lift, ret. rewrite Htruthy. cbn [andb].
    rewrite Hbook. reflexivity.
  - unfold record_book_move.
    destruct ((move_number st + 1) mod 2 =? 1); cbn; split_and!; reflexivity.
Qed.

Lemma book_move_skips_engine_witness :
  exists st',
    analyse_move (book_world first_move_book) 18 true initial_acc "e2e4" [] = (Ok st', [])
    /\ board st' = board initial_acc ++ ["e2e4"].
Proof.
  destruct (book_move_skips_engine (book_world first_move_book) 18 initial_acc "e2e4" []
              ["e2e4"; "d2d4"] None eq_refl eq_refl (list_elem_of_here _ _))
    as (st' & Hrun & _ & _ & _ & _ & Hboard & _).
  exists st'. split; [ exact Hrun | exact Hboard ].
Defined.

(** X10: a move the book does not list is analysed exactly as without a
    book when the lookup ends normally or with [IndexError]; any other
    exception of the book reader leaves the move loop at once, before the
    engine is asked. *)
Theorem book_failure_handling (w : World) (depth : Z) (st : Acc) (move : Move)
  (tr : list Event) (entries : list Move) (ending : option Exn) :
  book_truthy w = true ->
  find_all w (board st) = (entries, ending) ->
  move ∉ entries ->
  (ending = None \/ ending = Some IndexError ->
   analyse_move w depth true st move tr = analyse_move w depth false st move tr)
  /\ (forall e, ending = Some e -> e <> IndexError ->
      analyse_move w depth true st move tr = (Raise e, tr)).
Proof.
  intros Htruthy Hfind Hnot.
  assert (Hex : existsb (String.eqb move) entries = false).
  { destruct (existsb (String.eqb move) entries) eqn:H; [ | reflexivity ].
    apply existsb_eqb_elem in H. contradiction. }
  split.
  - intros Hend.
    assert (Hbook : book_has_move w (board st) move = Ok false).
    { unfold book_has_move. rewrite Hfind, Hex. destruct Hend as [-> | ->]; reflexivity. }
    unfold analyse_move. rewrite Htruthy. cbn [andb]. rewrite Hbook. reflexivity.
  - intros e -> He.
    assert (Hbook : book_has_move w (board st) move = Raise e).
    { unfold book_has_move. rewrite Hfind, Hex. destruct e; try reflexivity. contradiction. }
    unfold analyse_move, bind, lift. rewrite Htruthy. cbn [andb]. rewrite Hbook. reflexivity.
Qed.

Lemma book_failure_handling_witness :
  analyse_move (book_world first_move_book) 18 true initial_acc "a2a3" []
  = analyse_move (book_world first_move_book) 18 false initial_acc "a2a3" [].
Proof.
  assert (Hnot : "a2a3" ∉ ["e2e4"; "d2d4"]).
  { intros Hin. apply elem_of_cons in Hin as [Hin | Hin]; [ discriminate Hin | ].
    apply elem_of_cons in Hin as [Hin | Hin]; [ discriminate Hin | ].
    inversion Hin. }
  destruct (book_failure_handling (book_world first_move_book) 18 initial_acc "a2a3" []
              ["e2e4"; "d2d4"] None eq_refl eq_refl Hnot) as [Hsame _].
  apply Hsame. left. reflexivity.
Defined.

Lemma count_analyse_app (tr tr' : list Event) :
  count_analyse (tr ++ tr') = (count_analyse tr + count_analyse tr')%nat.
Proof. unfold count_analyse. rewrite List.filter_app, length_app. reflexivity. Qed.

Lemma analyse_move_requests (w : World) (depth : Z) (br : bool) (st st' : Acc)
  (move : Move) (tr tr' : list Event) :
  analyse_move w depth br st move tr = (Ok st', tr') ->
  Z.of_nat (count_analyse tr') - 2 * evaluated st'
  = Z.of_nat (count_analyse tr) - 2 * evaluated st
  /\ (br = false ->
      acc_white_book_moves st' = acc_white_book_moves st
      /\ acc_black_book_moves st' = acc_black_book_moves st).
Proof.
  unfold analyse_move, bind, lift, engine_analyse, ret, record_move, res_bind, evaluated.
  intros H.
  repeat case_match; simplify_eq; cbn.
  all: rewrite ?count_analyse_app, ?len_snoc; cbn.
  all: try (split; [ lia | intros; split; reflexivity ]).
  all: unfold record_book_move; destruct ((move_number st + 1) mod 2 =? 1); cbn.
  all: split; [ reflexivity | intros ->; discriminate ].
Qed.

Lemma move_loop_requests (w : World) (depth : Z) (br : bool) (moves : list Move) :
  forall (st : Acc) (tr : list Event) (st' : Acc) (tr' : list Event),
  move_loop w depth br moves st tr = (Ok st', tr') ->
  Z.of_nat (count_analyse tr') - 2 * evaluated st'
  = Z.of_nat (count_analyse tr) - 2 * evaluated st
  /\ (br = false ->
      acc_white_book_moves st' = acc_white_book_moves st
      /\ acc_black_book_moves st' = acc_black_book_moves st).
Proof.
  induction moves as [| move rest IH]; intros st tr st' tr' H; cbn in H.
  - unfold ret in H. simplify_eq. auto.
  - unfold bind in H.
    destruct (analyse_move w depth br st move tr) as [[st1 | e] tr1] eqn:Hstep;
      [ | discriminate ].
    destruct (analyse_move_requests _ _ _ _ _ _ _ _ Hstep) as [Hc1 Hb1].
    destruct (IH _ _ _ _ H) as [Hc' Hb'].
    split; [ lia | ]. intros Hbr.
    destruct (Hb' Hbr) as [-> ->]. apply Hb1, Hbr.
Qed.

Lemma analyse_move_books (w : World) (depth : Z) (br : bool) (st st' : Acc)
  (move : Move) (tr tr' : list Event) :
  analyse_move w depth br st move tr = (Ok st', tr') ->
  acc_white_book_moves st <= acc_white_book_moves st'
  /\ acc_black_book_moves st <= acc_black_book_moves st'.
Proof.
  unfold analyse_move, bind, lift, engine_analyse, ret, record_move, res_bind.
  intros H.
  repeat case_match; simplify_eq; cbn; try lia.
  all: unfold record_book_move; destruct ((move_number st + 1) mod 2 =? 1); cbn; lia.
Qed.

Lemma move_loop_books (w : World) (depth : Z) (br : bool) (moves : list Move) :
  forall (st : Acc) (tr : list Event) (st' : Acc) (tr' : list Event),
  move_loop w depth br moves st tr = (Ok st', tr') ->
  acc_white_book_moves st <= acc_white_book_moves st'
  /\ acc_black_book_moves st <= acc_black_book_moves st'.
Proof.
  induction moves as [| move rest IH]; intros st tr st' tr' H; cbn in H.
  - unfold ret in H. simplify_eq. lia.
  - unfold bind in H.
    destruct (analyse_move w depth br st move tr) as [[st1 | e] tr1] eqn:Hstep;
      [ | discriminate ].
    pose proof (analyse_move_books _ _ _ _ _ _ _ _ Hstep).
    pose proof (IH _ _ _ _ H). lia.
Qed.

Lemma count_analyse_snoc_other (tr : list Event) (ev : Event) :
  (forall b d, ev <> EngineAnalyse b d) ->
  count_analyse (tr ++ [ev]) = count_analyse tr.
Proof.
  intros Hev. rewrite count_analyse_app. unfold count_analyse at 2. cbn.
  destruct ev as [| b d | | | |]; cbn; try lia. destruct (Hev b d eq_refl).
Qed.

(** The parts of a completed analysis: the book decision, the move loop,
    the record. *)
Lemma analyse_loaded_game_run (w : World) (name sf : string) (depth : Z)
  (book_path : option string) (game : Game) (tr0 tr : list Event) (stats : GameStats) :
  analyse_loaded_game w name sf depth book_path game tr0 = (Ok stats, tr) ->
  exists elos tcl br tr2 st tr3,
    move_loop w depth br (mainline_moves game) initial_acc tr2 = (Ok st, tr3)
    /\ count_analyse tr2 = count_analyse tr0
    /\ count_analyse tr = count_analyse tr3
    /\ (br = true ->
        exists p, book_path = Some p /\ is_empty p = false /\ path_exists w p = true)
    /\ parse_time_control (get (headers game) "TimeControl" "") = Ok tcl
    /\ emit_stats name (get (headers game) "White" "unknown")
         (get (headers game) "Black" "unknown") (fst elos) (snd elos) tcl
         (get (headers game) "ECO" "unknown")
         (parse_result (get (headers game) "Result" "*")) st = Ok stats.
Proof.
  unfold analyse_loaded_game. unfold bind at 1. unfold lift at 1.
  destruct (parse_elos _ _) as [elos | e]; [ | discriminate ].
  unfold bind at 1. unfold lift at 1.
  destruct (parse_time_control _) as [tcl | e]; [ | discriminate ].
  unfold bind at 1.
  match goal with |- context [match ?c tr0 with _ => _ end] =>
    destruct (c tr0) as [[br | e] tr1] eqn:Hbook end; [ | discriminate ].
  assert (Htr1 : count_analyse tr1 = count_analyse tr0
                 /\ (br = true -> exists p, book_path = Some p /\ is_empty p = false
                                            /\ path_exists w p = true)).
  { unfold book_open, bind, lift, emit, ret in Hbook.
    repeat case_match; simplify_eq;
      rewrite ?count_analyse_snoc_other by discriminate;
      (split; [ reflexivity | ]); try discriminate.
    intros _. eexists. split; [ reflexivity | ].
    match goal with H : _ && _ = true |- _ => apply andb_true_iff in H as [H1 H2] end.
    apply negb_true_iff in H1. auto. }
  unfold bind at 1.
  destruct (engine_start w sf tr1) as [[[] | e] tr2] eqn:Hstart; [ | discriminate ].
  assert (Htr2 : count_analyse tr2 = count_analyse tr1).
  { unfold engine_start, bind, lift, emit in Hstart.
    repeat case_match; simplify_eq; apply count_analyse_snoc_other; discriminate. }
  unfold bind at 1.
  destruct (move_loop w depth br (mainline_moves game) initial_acc tr2)
    as [[st | e] tr3] eqn:Hloop; [ | discriminate ].
  unfold bind at 1.
  destruct (engine_quit w tr3) as [[[] | e] tr4] eqn:Hquit; [ | discriminate ].
  assert (Htr4 : count_analyse tr4 = count_analyse tr3).
  { unfold engine_quit, bind, lift, emit in Hquit.
    repeat case_match; simplify_eq; apply count_analyse_snoc_other; discriminate. }
  unfold bind at 1.
  match goal with |- context [match ?c tr4 with _ => _ end] =>
    destruct (c tr4) as [[[] | e] tr5] eqn:Hclose end; [ | discriminate ].
  assert (Htr5 : count_analyse tr5 = count_analyse tr4).
  { unfold book_close, bind, lift, emit, ret in Hclose.
    repeat case_match; simplify_eq;
      rewrite ?count_analyse_snoc_other by discriminate; reflexivity. }
  unfold lift. intros [= Hemit <-].
  exists elos, tcl, br, tr2, st, tr3.
  destruct Htr1 as [Htr1 Hbr].
  split_and!; try assumption; try reflexivity; congruence.
Qed.

Lemma completed_requests (w : World) (name sf : string) (depth : Z)
  (book_path : option string) (game : Game) (stats : GameStats) (tr : list Event) :
  read_game w = Ok (Some game) ->
  analyse_game_body w name sf depth book_path [] = (Ok stats, tr) ->
  Z.of_nat (count_analyse tr)
  = 2 * (white_total_moves stats - white_book_moves stats
         + (black_total_moves stats - black_book_moves stats)).
Proof.
  intros Hread Hrun. rewrite (analyse_game_body_loaded _ _ _ _ _ _ Hread) in Hrun.
  destruct (analyse_loaded_game_run _ _ _ _ _ _ _ _ _ Hrun)
    as (elos & tcl & br & tr2 & st & tr3 & Hloop & H2 & H3 & _ & _ & Hemit).
  destruct (move_loop_inv _ _ _ _ _ _ _ _ loop_invariant_initial Hloop) as [Hinv _].
  destruct (move_loop_requests _ _ _ _ _ _ _ _ Hloop) as [Hcount _].
  rewrite (emit_stats_ok _ _ _ _ _ _ _ _ st
             (inv_white_classes _ Hinv) (inv_black_classes _ Hinv)) in Hemit.
  injection Hemit as <-. cbn.
  rewrite H3. rewrite H2 in Hcount. unfold evaluated in Hcount. cbn in Hcount.
  unfold len in *. cbn [length] in Hcount. lia.
Qed.

(** X11: a completed analysis has asked the engine exactly twice for each
    move that was not a book move, hence at most twice per ply, and the
    book moves of a colour are between 0 and its total moves. *)
Theorem two_requests_per_evaluated_move (w : World) (name sf : string) (depth : Z)
  (book_path : option string) (game : Game) (stats : GameStats) (tr : list Event) :
  read_game w = Ok (Some game) ->
  analyse_game_body w name sf depth book_path [] = (Ok stats, tr) ->
  Z.of_nat (count_analyse tr)
  = 2 * (white_total_moves stats - white_book_moves stats
         + (black_total_moves stats - black_book_moves stats))
  /\ Z.of_nat (count_analyse tr) <= 2 * len (mainline_moves game)
  /\ 0 <= white_book_moves stats <= white_total_moves stats
  /\ 0 <= black_book_moves stats <= black_total_moves stats.
Proof.
  intros Hread Hrun.
  pose proof (completed_requests _ _ _ _ _ _ _ _ Hread Hrun) as Hreq.
  destruct (completed_stats _ _ _ _ _ _ _ _ Hread Hrun)
    as (_ & _ & _ & _ & Hwt & Hbt & _).
  rewrite (analyse_game_body_loaded _ _ _ _ _ _ Hread) in Hrun.
  destruct (analyse_loaded_game_run _ _ _ _ _ _ _ _ _ Hrun)
    as (elos & tcl & br & tr2 & st & tr3 & Hloop & H2 & H3 & Hbr & _ & Hemit).
  destruct (move_loop_inv _ _ _ _ _ _ _ _ loop_invariant_initial Hloop) as [Hinv _].
  destruct (move_loop_books _ _ _ _ _ _ _ _ Hloop) as [Hwb Hbb].
  rewrite (emit_stats_ok _ _ _ _ _ _ _ _ st
             (inv_white_classes _ Hinv) (inv_black_classes _ Hinv)) in Hemit.
  injection Hemit as <-. cbn in *.
  assert (0 <= len (white_eval_pairs st)) by (unfold len; lia).
  assert (0 <= len (black_eval_pairs st)) by (unfold len; lia).
  assert (0 <= len (mainline_moves game)) by (unfold len; lia).
  split; [ exact Hreq | ].
  split; [ | lia ].
  rewrite Hreq. Z.div_mod_to_equations. lia.
Qed.

Lemma two_requests_per_evaluated_move_witness :
  exists stats tr,
    analyse_game_body sample_world "game.pgn" "stockfish" 18 None [] = (Ok stats, tr)
    /\ Z.of_nat (count_analyse tr)
       = 2 * (white_total_moves stats - white_book_moves stats
              + (black_total_moves stats - black_book_moves stats)).
Proof.
  destruct (analyse_game_body sample_world "game.pgn" "stockfish" 18 None [])
    as [[stats | e] tr] eqn:Hrun.
  - exists stats, tr. split; [ reflexivity | ].
    exact (proj1 (two_requests_per_evaluated_move sample_world "game.pgn" "stockfish" 18
                    None sample_game stats tr eq_refl Hrun)).
  - exfalso.
    assert (Hok : is_ok (fst (analyse_game_body sample_world "game.pgn" "stockfish"
                                18 None [])) = true)
      by (vm_compute; reflexivity).
    rewrite Hrun in Hok. discriminate Hok.
Defined.

(** X12: without a usable book (no path, an empty path, or a path that
    does not exist) a completed analysis has no book move and has asked
    the engine exactly twice per ply of the main line. *)
Theorem without_book_every_move_is_evaluated (w : World) (name sf : string) (depth : Z)
  (book_path : option string) (game : Game) (stats : GameStats) (tr : list Event) :
  read_game w = Ok (Some game) ->
  analyse_game_body w name sf depth book_path [] = (Ok stats, tr) ->
  (book_path = None \/ book_path = Some ""
   \/ exists p, book_path = Some p /\ path_exists w p = false) ->
  white_book_moves stats = 0
  /\ black_book_moves stats = 0
  /\ Z.of_nat (count_analyse tr) = 2 * len (mainline_moves game).
Proof.
  intros Hread Hrun Hnobook.
  pose proof (completed_requests _ _ _ _ _ _ _ _ Hread Hrun) as Hreq.
  destruct (completed_stats _ _ _ _ _ _ _ _ Hread Hrun)
    as (_ & _ & _ & _ & Hwt & Hbt & _).
  rewrite (analyse_game_body_loaded _ _ _ _ _ _ Hread) in Hrun.
  destruct (analyse_loaded_game_run _ _ _ _ _ _ _ _ _ Hrun)
    as (elos & tcl & br & tr2 & st & tr3 & Hloop & H2 & H3 & Hbr & _ & Hemit).
  assert (Hfalse : br = false).
  { destruct br; [ | reflexivity ]. destruct (Hbr eq_refl) as (p & Hp & Hne & Hex).
    destruct Hnobook as [-> | [-> | (q & -> & Hq)]]; simplify_eq; congruence. }
  destruct (move_loop_inv _ _ _ _ _ _ _ _ loop_invariant_initial Hloop) as [Hinv _].
  destruct (move_loop_requests _ _ _ _ _ _ _ _ Hloop) as [_ Hbook].
  destruct (Hbook Hfalse) as [Hwb Hbb]. cbn in Hwb, Hbb.
  rewrite (emit_stats_ok _ _ _ _ _ _ _ _ st
             (inv_white_classes _ Hinv) (inv_black_classes _ Hinv)) in Hemit.
  injection Hemit as <-. cbn in *.
  split; [ exact Hwb | ]. split; [ exact Hbb | ].
  rewrite Hreq, Hwt, Hbt, Hwb, Hbb.
  assert (0 <= len (mainline_moves game)) by (unfold len; lia).
  Z.div_mod_to_equations. lia.
Qed.

Lemma without_book_every_move_is_evaluated_witness :
  exists stats tr,
    analyse_game_body sample_world "game.pgn" "stockfish" 18 None [] = (Ok stats, tr)
    /\ white_book_moves stats = 0
    /\ black_book_moves stats = 0
    /\ Z.of_nat (count_analyse tr) = 2 * len (mainline_moves sample_game).
Proof.
  destruct (analyse_game_body sample_world "game.pgn" "stockfish" 18 None [])
    as [[stats | e] tr] eqn:Hrun.
  - exists stats, tr. split; [ reflexivity | ].
    exact (without_book_every_move_is_evaluated sample_world "game.pgn" "stockfish" 18
             None sample_game stats tr eq_refl Hrun (or_introl eq_refl)).
  - exfalso.
    assert (Hok : is_ok (fst (analyse_game_body sample_world "game.pgn" "stockfish"
                                18 None [])) = true)
      by (vm_compute; reflexivity).
    rewrite Hrun in Hok. discriminate Hok.
Defined.
End MoreMoveLoop.

(** ** The fields of a completed record *)

Section MoreRecords.




Local Open Scope R_scope.

Lemma round1_zero : Accuracy.round1 0 = 0.
Proof.
  destruct (round1_bounds 0) as [_ Hnear]; [ lra | ].
  unfold Accuracy.round1 in *.
  pose proof (round_half_even_near (0 * 10)) as [Hlo Hhi].
  set (n := Accuracy.round_half_even (0 * 10)) in *.
  assert (Hn : n = 0%Z).
  { assert (H1 : (-1 < n)%Z) by (apply lt_IZR; lra).
    assert (H2 : (n < 1)%Z) by (apply lt_IZR; lra). lia. }
  rewrite Hn. lra.
Qed.

(** X14: whatever happens, both accuracies of the record [analyse_game]
    returns lie in [0, 100], and the accuracy of a colour all of whose
    moves were book moves (or that made no move) is 0. *)
Theorem returned_accuracy (w : World) (name sf : string) (depth : Z)
  (book_path : option string) :
  let stats := fst (analyse_game w name sf depth book_path) in
  0 <= white_accuracy stats <= 100
  /\ 0 <= black_accuracy stats <= 100
  /\ (white_total_moves stats = white_book_moves stats -> white_accuracy stats = 0)
  /\ (black_total_moves stats = black_book_moves stats -> black_accuracy stats = 0).
Proof.
  cbv zeta. unfold analyse_game.
  destruct (analyse_game_body w name sf depth book_path []) as [[stats | e] tr] eqn:Hrun;
    cbn; [ | split_and!; try lra; reflexivity ].
  unfold analyse_game_body, bind, lift in Hrun.
  destruct (read_game w) as [[game |] | e] eqn:Hread; [ | | discriminate ].
  2: { unfold ret in Hrun. injection Hrun as <- <-. cbn. split_and!; try lra; reflexivity. }
  destruct (analyse_loaded_game_run _ _ _ _ _ _ _ _ _ Hrun)
    as (elos & tcl & br & tr2 & st & tr3 & Hloop & _ & _ & _ & _ & Hemit).
  destruct (move_loop_inv _ _ _ _ _ _ _ _ loop_invariant_initial Hloop) as [Hinv _].
  rewrite (emit_stats_ok _ _ _ _ _ _ _ _ st
             (inv_white_classes _ Hinv) (inv_black_classes _ Hinv)) in Hemit.
  injection Hemit as <-. cbn.
  assert (Hempty : forall l : list (Z * Z),
            (len l + 0 = 0)%Z -> Accuracy.round1 (Accuracy.calculate_accuracy l) = 0).
  { intros l Hl. destruct l; [ apply round1_zero | ]. unfold len in Hl. cbn in Hl. lia. }
  split; [ apply round1_bounds, calculate_accuracy_bounds | ].
  split; [ apply round1_bounds, calculate_accuracy_bounds | ].
  split; intros Heq; apply Hempty; lia.
Qed.
End MoreRecords.

(** ** The engine session over every path *)

Section MoreLifecycle.

Ltac count_events :=
  rewrite ?quit_count_snoc, ?start_count_snoc, ?count_analyse_snoc_other by discriminate;
  cbn [is_quit is_started].

Lemma analyse_loaded_game_lifecycle (w : World) (name sf : string) (depth : Z)
  (book_path : option string) (game : Game) (tr0 tr : list Event) (r : Res GameStats) :
  analyse_loaded_game w name sf depth book_path game tr0 = (r, tr) ->
  (start_count tr <= S (start_count tr0))%nat
  /\ (quit_count tr + start_count tr0 <= quit_count tr0 + start_count tr)%nat
  /\ (count_analyse tr <> count_analyse tr0 -> start_count tr = S (start_count tr0)).
Proof.
  unfold analyse_loaded_game. unfold bind at 1. unfold lift at 1.
  destruct (parse_elos _ _) as [elos | e0];
    [ | intros [= <- <-]; split_and!; [ lia | lia | congruence ] ].
  unfold bind at 1. unfold lift at 1.
  destruct (parse_time_control _) as [tcl | e0];
    [ | intros [= <- <-]; split_and!; [ lia | lia | congruence ] ].
  unfold bind at 1.
  match goal with |- context [match ?c tr0 with _ => _ end] =>
    destruct (c tr0) as [rb tr1] eqn:Hbook end.
  assert (Htr1 : quit_count tr1 = quit_count tr0 /\ start_count tr1 = start_count tr0
                 /\ count_analyse tr1 = count_analyse tr0).
  { unfold book_open, bind, lift, emit, ret in Hbook.
    repeat case_match; simplify_eq; count_events; split_and!; lia. }
  destruct Htr1 as (Hq1 & Hs1 & Hc1). clear Hbook.
  destruct rb as [br | e0];
    [ | intros [= <- <-]; split_and!; [ lia | lia | congruence ] ].
  unfold bind at 1.
  destruct (engine_start w sf tr1) as [[[] | e0] tr2] eqn:Hstart.
  2: { intros [= <- <-].
       unfold engine_start, bind, lift, emit in Hstart.
       repeat case_match; simplify_eq; (split_and!; [ lia | lia | congruence ]). }
  assert (Htr2 : quit_count tr2 = quit_count tr1 /\ start_count tr2 = S (start_count tr1)).
  { unfold engine_start, bind, lift, emit in Hstart.
    repeat case_match; simplify_eq; count_events; split; lia. }
  destruct Htr2 as (Hq2 & Hs2).
  unfold bind at 1.
  destruct (move_loop w depth br (mainline_moves game) initial_acc tr2)
    as [rl tr3] eqn:Hloop.
  destruct (move_loop_trace _ _ _ _ _ _ _ _ Hloop) as [Hq3 Hs3].
  destruct rl as [st | e0];
    [ | intros [= <- <-]; split_and!; [ lia | lia | intros _; lia ] ].
  unfold bind at 1.
  destruct (engine_quit w tr3) as [rq tr4] eqn:Hquit.
  assert (Htr4 : quit_count tr4 = S (quit_count tr3) /\ start_count tr4 = start_count tr3).
  { unfold engine_quit, bind, lift, emit in Hquit.
    repeat case_match; simplify_eq; count_events; split; lia. }
  destruct Htr4 as (Hq4 & Hs4).
  destruct rq as [[] | e0];
    [ | intros [= <- <-]; split_and!; [ lia | lia | intros _; lia ] ].
  unfold bind at 1.
  match goal with |- context [match ?c tr4 with _ => _ end] =>
    destruct (c tr4) as [rc tr5] eqn:Hclose end.
  assert (Htr5 : quit_count tr5 = quit_count tr4 /\ start_count tr5 = start_count tr4).
  { unfold book_close, bind, lift, emit, ret in Hclose.
    repeat case_match; simplify_eq; count_events; split; lia. }
  destruct Htr5 as (Hq5 & Hs5).
  destruct rc as [[] | e0];
    [ | intros [= <- <-]; split_and!; [ lia | lia | intros _; lia ] ].
  unfold lift. intros [= _ <-]. split_and!; [ lia | lia | intros _; lia ].
Qed.

(** X15: on every path through [analyse_game] the engine is started at
    most once, never stopped more often than started, never asked before
    it was started, and neither started nor asked when the file holds no
    game or cannot be read. *)
Theorem engine_lifecycle (w : World) (name sf : string) (depth : Z)
  (book_path : option string) :
  let tr := snd (analyse_game w name sf depth book_path) in
  (start_count tr <= 1)%nat
  /\ (quit_count tr <= start_count tr)%nat
  /\ (count_analyse tr <> 0%nat -> start_count tr = 1%nat)
  /\ ((forall game, read_game w <> Ok (Some game)) ->
      start_count tr = 0%nat /\ count_analyse tr = 0%nat).
Proof.
  cbv zeta. unfold analyse_game.
  destruct (analyse_game_body w name sf depth book_path []) as [r tr] eqn:Hrun.
  assert (Hbody : (start_count tr <= 1)%nat
                  /\ (quit_count tr <= start_count tr)%nat
                  /\ (count_analyse tr <> 0%nat -> start_count tr = 1%nat)
                  /\ ((forall game, read_game w <> Ok (Some game)) ->
                      start_count tr = 0%nat /\ count_analyse tr = 0%nat)).
  { unfold analyse_game_body, bind, lift in Hrun.
    destruct (read_game w) as [[game |] | e] eqn:Hread.
    - destruct (analyse_loaded_game_lifecycle _ _ _ _ _ _ _ _ _ Hrun) as (H1 & H2 & H3).
      cbn in H1, H2, H3. split_and!; try lia; try exact H3.
      intros Hno. destruct (Hno game eq_refl).
    - unfold ret in Hrun. simplify_eq. cbn. split_and!; try lia; auto.
    - simplify_eq. cbn. split_and!; try lia; auto. }
  destruct r as [stats | e]; cbn [snd]; [ exact Hbody | ].
  count_events. rewrite !Nat.add_0_r. exact Hbody.
Qed.
End MoreLifecycle.

(** ** The output file as a log *)

Section MoreBatch.

Lemma readlines_rows (rt : Runtime) (results : list GameStats) :
  readlines (rows_text rt results) [] false
  = concat (map (fun stats => readlines (format_row rt stats) [] false) results).
Proof.
  induction results as [| s results IH]; [ reflexivity | ].
  cbn [rows_text fold_right map concat]. fold (rows_text rt results).
  destruct (format_row_shape rt s) as [rest Hshape].
  rewrite Hshape, readlines_app by discriminate. rewrite <- Hshape, IH. reflexivity.
Qed.

Lemma rows_line_elem (rt : Runtime) (results : list GameStats) (line : string) :
  line ∈ readlines (rows_text rt results) [] false
  <-> exists stats, stats ∈ results /\ line ∈ readlines (format_row rt stats) [] false.
Proof.
  rewrite readlines_rows. induction results as [| s results IH]; cbn [map concat].
  - split; [ intros H; by apply elem_of_nil in H | intros (s & H & _); by apply elem_of_nil in H ].
  - rewrite elem_of_app, IH. split.
    + intros [H | (s' & Hin & H)].
      * exists s. split; [ apply list_elem_of_here | exact H ].
      * exists s'. split; [ by apply list_elem_of_further | exact H ].
    + intros (s' & Hin & H). apply elem_of_cons in Hin as [-> | Hin]; [ auto | eauto ].
Qed.

Lemma column_1_of_row (rt : Runtime) (stats : GameStats) :
  plain_name (filename stats) = true ->
  strip (split_first tab (format_row rt stats)) = filename stats.
Proof.
  intros Hplain. destruct (format_row_shape rt stats) as [rest ->].
  destruct (plain_name_spec _ Hplain) as (Hstrip & Htab & _).
  rewrite append_assoc. change (String tab rest +:+ newline) with (String tab (rest +:+ newline)).
  rewrite (split_first_app _ _ Htab). exact Hstrip.
Qed.

Lemma load_after_rows (rt : Runtime) (output_file : option string)
  (results : list GameStats) :
  ends_line output_file ->
  (forall stats, stats ∈ results ->
     plain_name (filename stats) = true
     /\ filename stats <> ""
     /\ one_line (format_row rt stats)) ->
  load_processed_files (Some (opened output_file +:+ rows_text rt results))
  = load_processed_files output_file ∪ list_to_set (map filename results).
Proof.
  intros Hend Hrows. rewrite (load_appended _ _ Hend).
  apply set_eq. intros name.
  rewrite fold_add_line_elem, elem_of_union, elem_of_list_to_set.
  split; (intros [Hold | Hnew]; [ left; exact Hold | right ]).
  - destruct Hnew as (line & Hline & Hcol & Hne).
    apply rows_line_elem in Hline as (stats & Hin & Hline).
    destruct (Hrows stats Hin) as (Hplain & _ & Hone).
    unfold one_line in Hone. rewrite Hone in Hline.
    apply list_elem_of_singleton in Hline. subst line.
    rewrite (column_1_of_row _ _ Hplain) in Hcol. subst name.
    apply list_elem_of_fmap_2. exact Hin.
  - apply list_elem_of_fmap in Hnew as (stats & -> & Hin).
    destruct (Hrows stats Hin) as (Hplain & Hne & Hone).
    exists (format_row rt stats). split_and!.
    + apply rows_line_elem. exists stats. split; [ exact Hin | ].
      unfold one_line in Hone. rewrite Hone. apply list_elem_of_here.
    + apply column_1_of_row, Hplain.
    + destruct (filename stats); [ contradiction | reflexivity ].
Qed.

(** X16: the order in which the pool hands the results back does not
    matter: two runs that differ in it only produce the same results up
    to order and output files with the same set of listed names. *)
Theorem completion_order_is_irrelevant (rt : Runtime) (order : list string -> list string)
  (pgn_dir : gset string) (sf : string) (output_file : option string) (depth : Z)
  (book_path : option string) :
  (forall l, imap_unordered rt l ≡ₚ l) ->
  (forall l, order l ≡ₚ l) ->
  ends_line output_file ->
  snd (analyse_all_games (with_order rt order) pgn_dir sf output_file depth book_path)
  ≡ₚ snd (analyse_all_games rt pgn_dir sf output_file depth book_path)
  /\ load_processed_files
       (fst (analyse_all_games (with_order rt order) pgn_dir sf output_file depth book_path))
     = load_processed_files
         (fst (analyse_all_games rt pgn_dir sf output_file depth book_path)).
Proof.
  intros Hperm Horder Hend. rewrite !analyse_all_games_eq.
  destruct (remaining pgn_dir output_file) as [| g pgn_files]; [ auto | ].
  cbv zeta. cbn [fst snd].
  set (results := map (analyse_game_wrapper rt sf depth (worker_book rt book_path))
                      (imap_unordered rt (g :: pgn_files))).
  set (results' := map (analyse_game_wrapper (with_order rt order) sf depth
                          (worker_book (with_order rt order) book_path))
                       (imap_unordered (with_order rt order) (g :: pgn_files))).
  assert (Hres : results' ≡ₚ results).
  { unfold results, results'. cbn [imap_unordered with_order].
    change (analyse_game_wrapper (with_order rt order) sf depth
              (worker_book (with_order rt order) book_path))
      with (analyse_game_wrapper rt sf depth (worker_book rt book_path)).
    apply Permutation_map. rewrite Horder, Hperm. reflexivity. }
  split; [ exact Hres | ].
  rewrite !(load_appended _ _ Hend).
  apply set_eq. intros name. rewrite !fold_add_line_elem.
  split; (intros [Hold | (line & Hline & Hcol)]; [ left; exact Hold | right ]).
  - exists line. split; [ | exact Hcol ].
    apply rows_line_elem. apply rows_line_elem in Hline as (stats & Hin & Hline).
    exists stats. split; [ rewrite <- Hres; exact Hin | exact Hline ].
  - exists line. split; [ | exact Hcol ].
    apply rows_line_elem. apply rows_line_elem in Hline as (stats & Hin & Hline).
    exists stats. split; [ rewrite Hres; exact Hin | exact Hline ].
Qed.

Lemma completion_order_is_irrelevant_witness :
  load_processed_files
    (fst (analyse_all_games (with_order (sample_runtime (fun _ => "0.0")) (fun l => l))
            plain_dir "stockfish" None 18 None))
  = load_processed_files
      (fst (analyse_all_games (sample_runtime (fun _ => "0.0"))
              plain_dir "stockfish" None 18 None)).
Proof.
  assert (Hperm : forall l, imap_unordered (sample_runtime (fun _ => "0.0")) l ≡ₚ l).
  { intros l. symmetry. apply Permutation_rev. }
  exact (proj2 (completion_order_is_irrelevant (sample_runtime (fun _ => "0.0"))
                  (fun l => l) plain_dir "stockfish" None 18 None Hperm
                  (fun l => Permutation_refl l) I)).
Defined.

(** X17: rows appended to an output file that ends with a line break (or
    to a new file, after its header) are read back: when each name is
    plain and not empty and each row is one line, the names listed
    afterwards are those listed before together with the names of the
    rows written. *)
Theorem written_rows_are_read_back (rt : Runtime) (output_file : option string)
  (results : list GameStats) :
  ends_line output_file ->
  (forall stats, stats ∈ results ->
     plain_name (filename stats) = true
     /\ filename stats <> ""
     /\ one_line (format_row rt stats)) ->
  load_processed_files (Some (opened output_file +:+ rows_text rt results))
  = load_processed_files output_file ∪ list_to_set (map filename results).
Proof. exact (load_after_rows rt output_file results). Qed.

Lemma written_rows_are_read_back_witness :
  load_processed_files
    (Some (opened None
           +:+ rows_text empty_files_runtime [placeholder "a.pgn"; placeholder "b.pgn"]))
  = load_processed_files None
    ∪ list_to_set (map filename [placeholder "a.pgn"; placeholder "b.pgn"]).
Proof.
  apply (written_rows_are_read_back empty_files_runtime None
           [placeholder "a.pgn"; placeholder "b.pgn"] I).
  intros stats Hin.
  apply elem_of_cons in Hin as [-> | Hin];
    [ | apply elem_of_cons in Hin as [-> | Hin]; [ | inversion Hin ] ];
    (split; [ reflexivity | split; [ discriminate | vm_compute; reflexivity ] ]).
Defined.

Lemma filter_only {A} (P : A -> Prop) `{forall x, Decision (P x)} (l : list A) (a : A) :
  NoDup l -> a ∈ l -> (forall x, x ∈ l -> P x <-> x = a) -> filter P l = [a].
Proof.
  induction l as [| x l IH]; intros Hnd Hin HP.
  - by apply elem_of_nil in Hin.
  - apply NoDup_cons in Hnd as [Hx Hnd].
    destruct (decide (P x)) as [Hpx | Hpx].
    + assert (Hxa : x = a) by (apply HP; [ apply list_elem_of_here | exact Hpx ]).
      subst x. rewrite filter_cons_True by exact Hpx.
      f_equal. apply filter_none. intros y Hy Hpy.
      apply HP in Hpy; [ | by apply list_elem_of_further ]. subst y. contradiction.
    + rewrite filter_cons_False by exact Hpx.
      apply IH; [ exact Hnd | | ].
      * apply elem_of_cons in Hin as [-> | Hin]; [ | exact Hin ].
        exfalso. apply Hpx. apply HP; [ apply list_elem_of_here | reflexivity ].
      * intros y Hy. apply HP. by apply list_elem_of_further.
Qed.

Lemma filter_all {A} (P : A -> Prop) `{forall x, Decision (P x)} (l : list A) :
  (forall x, x ∈ l -> P x) -> filter P l = l.
Proof.
  induction l as [| x l IH]; intros HP; [ reflexivity | ].
  rewrite filter_cons_True by (apply HP, list_elem_of_here).
  f_equal. apply IH. intros y Hy. apply HP. by apply list_elem_of_further.
Qed.

(** X18: an output file that exists but is empty gets no header, so the
    first row written takes the header's place: reading the file back
    skips it, its name is not among the listed ones, and the next run
    analyses exactly that file again and appends a second row for it. *)
Theorem headerless_output_loses_first_row (rt : Runtime) (pgn_dir : gset string)
  (sf : string) (depth : Z) (book_path : option string) :
  (forall l, imap_unordered rt l ≡ₚ l) ->
  (forall name, name ∈ discover pgn_dir ->
     plain_name name = true
     /\ one_line (format_row rt
                    (analyse_game_wrapper rt sf depth (worker_book rt book_path) name))) ->
  discover pgn_dir <> [] ->
  let first := analyse_all_games rt pgn_dir sf (Some "") depth book_path in
  let second := analyse_all_games rt pgn_dir sf (fst first) depth book_path in
  exists stats rest,
    snd first = stats :: rest
    /\ fst first = Some (rows_text rt (stats :: rest))
    /\ load_processed_files (fst first) = list_to_set (map filename rest)
    /\ ~ (filename stats ∈ load_processed_files (fst first))
    /\ snd second = [stats]
    /\ fst second = Some (rows_text rt (stats :: rest) +:+ format_row rt stats).
Proof.
  intros Hperm Hnames Hfiles first second.
  assert (Hrem1 : remaining pgn_dir (Some "") = discover pgn_dir).
  { unfold remaining. apply filter_all. intros f _. cbn. set_solver. }
  set (wrap := analyse_game_wrapper rt sf depth (worker_book rt book_path)).
  assert (Hfirst : first = (Some (rows_text rt (map wrap (imap_unordered rt (discover pgn_dir)))),
                            map wrap (imap_unordered rt (discover pgn_dir)))).
  { unfold first. rewrite analyse_all_games_eq, Hrem1.
    destruct (discover pgn_dir) as [| g l] eqn:Hd; [ contradiction | ]. reflexivity. }
  destruct (imap_unordered rt (discover pgn_dir)) as [| f order] eqn:Horder.
  { exfalso. pose proof (Hperm (discover pgn_dir)) as Hp. rewrite Horder in Hp.
    apply Permutation_nil_l in Hp. symmetry in Hp. contradiction. }
  assert (Hp : f :: order ≡ₚ discover pgn_dir) by (rewrite <- Horder; apply Hperm).
  assert (Hnd : NoDup (f :: order)) by (rewrite Hp; apply discover_NoDup).
  cbn [map] in Hfirst.
  assert (Hrowf : exists body, format_row rt (wrap f) = body +:+ newline).
  { destruct (format_row_shape rt (wrap f)) as [r ->]. eexists. reflexivity. }
  assert (Hload : load_processed_files (fst first) = list_to_set (map filename (map wrap order))).
  { rewrite Hfirst. cbn [fst rows_text fold_right]. fold (rows_text rt (map wrap order)).
    change (format_row rt (wrap f)) with (opened (Some (format_row rt (wrap f)))).
    rewrite load_after_rows.
    - assert (Hone : one_line (format_row rt (wrap f))).
      { apply Hnames. rewrite <- Hp. apply list_elem_of_here. }
      unfold load_processed_files at 1. unfold one_line in Hone. cbn [opened].
      rewrite Hone. cbn [fold_left]. apply (left_id_L ∅ (∪)).
    - exact Hrowf.
    - intros stats Hin. apply list_elem_of_fmap in Hin as (name & -> & Hin).
      assert (Hd : name ∈ discover pgn_dir) by (rewrite <- Hp; by apply list_elem_of_further).
      destruct (Hnames name Hd) as [Hplain Hone].
      unfold wrap, analyse_game_wrapper at 1 2. rewrite analyse_game_filename.
      split_and!; [ exact Hplain | | exact Hone ].
      apply discover_elem in Hd as [_ Hpgn]. intros ->. discriminate Hpgn. }
  assert (Hnames' : map filename (map wrap order) = order)
    by apply wrapper_filenames.
  assert (Hff : filename (wrap f) = f) by apply analyse_game_filename.
  assert (Hrem2 : remaining pgn_dir (fst first) = [f]).
  { unfold remaining. rewrite Hload, Hnames'.
    apply filter_only.
    - apply discover_NoDup.
    - rewrite <- Hp. apply list_elem_of_here.
    - intros x Hx. rewrite elem_of_list_to_set. rewrite <- Hp in Hx.
      apply NoDup_cons in Hnd as [Hf _].
      apply elem_of_cons in Hx as [-> | Hx]; split; try tauto; congruence. }
  exists (wrap f), (map wrap order).
  split_and!.
  - rewrite Hfirst. reflexivity.
  - rewrite Hfirst. reflexivity.
  - exact Hload.
  - rewrite Hload, Hnames', Hff, elem_of_list_to_set.
    apply NoDup_cons in Hnd as [Hf _]. exact Hf.
  - unfold second. rewrite analyse_all_games_eq, Hrem2. cbv zeta. cbn [snd].
    pose proof (Hperm [f]) as H1. apply Permutation_singleton_r in H1. rewrite H1.
    reflexivity.
  - unfold second. rewrite analyse_all_games_eq, Hrem2. cbv zeta. cbn [fst].
    pose proof (Hperm [f]) as H1. apply Permutation_singleton_r in H1. rewrite H1.
    rewrite Hfirst. cbn [fst opened map rows_text fold_right]. rewrite append_nil_r.
    reflexivity.
Qed.

Lemma headerless_output_loses_first_row_witness :
  exists stats,
    snd (analyse_all_games empty_files_runtime plain_dir "stockfish"
           (fst (analyse_all_games empty_files_runtime plain_dir "stockfish"
                   (Some "") 18 None))
           18 None) = [stats].
Proof.
  assert (Hperm : forall l, imap_unordered empty_files_runtime l ≡ₚ l).
  { intros l. symmetry. apply Permutation_rev. }
  assert (Hfiles : discover plain_dir = ["a.pgn"; "b.pgn"]) by (vm_compute; reflexivity).
  destruct (headerless_output_loses_first_row empty_files_runtime plain_dir "stockfish"
              18 None Hperm) as (stats & rest & _ & _ & _ & _ & Hsecond & _).
  - rewrite Hfiles. intros name Hin.
    apply elem_of_cons in Hin as [-> | Hin];
      [ | apply elem_of_cons in Hin as [-> | Hin]; [ | inversion Hin ] ];
      (split; [ reflexivity | vm_compute; reflexivity ]).
  - rewrite Hfiles. discriminate.
  - exists stats. exact Hsecond.
Defined.
End MoreBatch.

(** ** The exporter *)

Section ExportedFiles.
Import Exporter.

Lemma fold_replace_cons (chars : list ascii) (c : ascii) (r : string) :
  fold_left (fun text char => replace char text) chars (String c r)
  = String (fold_left (fun x char => if Ascii.eqb x char then "_"%char else x) chars c)
      (fold_left (fun text char => replace char text) chars r).
Proof.
  revert c r. induction chars as [| ch chars IH]; intros c r; [reflexivity |].
  cbn [fold_left replace]. apply IH.
Qed.

Lemma sanitize_cons (c : ascii) (r : string) :
  sanitize_filename (String c r) = String (clean c) (sanitize_filename r).
Proof.
  unfold sanitize_filename. rewrite fold_replace_cons. f_equal.
  destruct c as [[] [] [] [] [] [] [] []]; vm_compute; reflexivity.
Qed.

Lemma sanitize_nil : sanitize_filename "" = "".
Proof. reflexivity. Qed.

Lemma sanitize_app (a b : string) :
  sanitize_filename (a +:+ b) = sanitize_filename a +:+ sanitize_filename b.
Proof.
  induction a as [| c a IH]; [reflexivity |].
  change (String c a +:+ b) with (String c (a +:+ b)).
  rewrite !sanitize_cons, IH. reflexivity.
Qed.

Lemma clean_valid (c : ascii) : existsb (Ascii.eqb (clean c)) invalid_chars = false.
Proof. destruct c as [[] [] [] [] [] [] [] []]; vm_compute; reflexivity. Qed.

Lemma clean_other (c d : ascii) :
  existsb (Ascii.eqb d) invalid_chars = false -> d <> "_"%char ->
  Ascii.eqb (clean c) d = Ascii.eqb c d.
Proof.
  intros Hd Hu. unfold clean. destruct (existsb (Ascii.eqb c) invalid_chars) eqn:Hc; [| reflexivity].
  destruct (Ascii.eqb_spec c d) as [-> | Hcd]; [congruence |].
  apply Ascii.eqb_neq. congruence.
Qed.

Lemma existsb_invalid (c : ascii) :
  existsb (Ascii.eqb c) invalid_chars = true <-> c ∈ invalid_chars.
Proof.
  rewrite existsb_exists. split.
  - intros (d & Hin & Heq). apply Ascii.eqb_eq in Heq. subst. now apply list_elem_of_In.
  - intros Hin. exists c. split; [now apply list_elem_of_In | apply Ascii.eqb_refl].
Qed.

(** X19: [sanitize_filename] keeps the length, leaves none of the nine
    invalid characters, keeps the occurrences of every other character
    but the underscore, changes nothing when applied again or to a text
    without invalid characters, and works part by part on a
    concatenation. *)
Theorem sanitize_filename_safe (text suffix : string) (c : ascii) :
  String.length (sanitize_filename text) = String.length text
  /\ (c ∈ invalid_chars -> contains c (sanitize_filename text) = false)
  /\ (c ∉ invalid_chars -> c <> "_"%char ->
      contains c (sanitize_filename text) = contains c text)
  /\ sanitize_filename (sanitize_filename text) = sanitize_filename text
  /\ ((forall d, d ∈ invalid_chars -> contains d text = false) ->
      sanitize_filename text = text)
  /\ sanitize_filename (text +:+ suffix)
     = sanitize_filename text +:+ sanitize_filename suffix.
Proof.
  split_and!.
  - induction text as [| x text IH]; [reflexivity |].
    rewrite sanitize_cons. cbn [String.length]. now rewrite IH.
  - intros Hc. induction text as [| x text IH]; [reflexivity |].
    rewrite sanitize_cons. cbn [contains]. rewrite IH, orb_false_r.
    apply Ascii.eqb_neq. intros <-.
    apply existsb_invalid in Hc. now rewrite clean_valid in Hc.
  - intros Hc Hu. induction text as [| x text IH]; [reflexivity |].
    rewrite sanitize_cons. cbn [contains]. rewrite IH. f_equal.
    apply clean_other; [| exact Hu].
    destruct (existsb (Ascii.eqb c) invalid_chars) eqn:He; [| reflexivity].
    now apply existsb_invalid in He.
  - induction text as [| x text IH]; [reflexivity |].
    rewrite !sanitize_cons, IH. f_equal.
    unfold clean at 1. now rewrite clean_valid.
  - intros Hno. induction text as [| x text IH]; [reflexivity |].
    rewrite sanitize_cons. rewrite IH.
    + f_equal. unfold clean.
      destruct (existsb (Ascii.eqb x) invalid_chars) eqn:He; [| reflexivity].
      apply existsb_invalid in He. specialize (Hno x He). cbn [contains] in Hno.
      now rewrite Ascii.eqb_refl in Hno.
    + intros d Hd. specialize (Hno d Hd). cbn [contains] in Hno.
      now apply orb_false_elim in Hno.
  - apply sanitize_app.
Qed.

End ExportedFiles.

Section ExportRuns.
Import Exporter.

Lemma is_pgn_suffix (s : string) : is_pgn (s +:+ ".pgn") = true.
Proof.
  unfold is_pgn.
  assert (Hlen : String.length (s +:+ ".pgn") = (String.length s + 4)%nat).
  { induction s as [| c s IH]; [reflexivity |]. rewrite append_cons. cbn [String.length].
    now rewrite IH. }
  rewrite Hlen.
  replace (String.length s + 4 - 4)%nat with (String.length s) by lia.
  assert (Hsub : substring (String.length s) 4 (s +:+ ".pgn") = ".pgn").
  { clear Hlen. induction s as [| c s IH]; [reflexivity |].
    rewrite append_cons. cbn [String.length substring]. exact IH. }
  rewrite Hsub. cbn [String.eqb]. rewrite andb_true_r.
  apply Nat.leb_le. lia.
Qed.

Lemma sanitize_no_invalid (text : string) (c : ascii) :
  c ∈ invalid_chars -> contains c (sanitize_filename text) = false.
Proof.
  intros Hc. induction text as [| x text IH]; [reflexivity |].
  rewrite sanitize_cons. cbn [contains]. rewrite IH, orb_false_r.
  apply Ascii.eqb_neq. intros <-.
  apply existsb_invalid in Hc. now rewrite clean_valid in Hc.
Qed.

Lemma filename_is_pgn (date : string) (game : Game) :
  is_pgn (filename_of date game) = true.
Proof.
  unfold filename_of. cbv zeta.
  rewrite <- !append_assoc, sanitize_app.
  change (sanitize_filename ".pgn") with ".pgn". apply is_pgn_suffix.
Qed.

Lemma for_each_invariant {A : Type} (P : Progress -> Prop)
  (body : Progress -> A -> Run) (xs : list A) (st : Progress) :
  (forall st x, P st -> P (state_of (body st x))) ->
  P st -> P (state_of (for_each body xs st)).
Proof.
  intros Hstep. revert st. induction xs as [| x xs IH]; intros st Hst; [exact Hst |].
  cbn [for_each]. specialize (Hstep st x Hst).
  destruct (body st x) as [st' | st']; [apply IH |]; exact Hstep.
Qed.

Lemma export_games_invariant (P : Progress -> Prop) (rm : Remote) (output_dir : gmap string string) :
  (forall st game, P st ->
     P (state_of (export_game rm (get_existing_files output_dir) st game))) ->
  P {| dir := output_dir; total_games := 0; skipped_games := 0 |} ->
  P (state_of (export_games rm output_dir)).
Proof.
  intros Hstep Hstart. unfold export_games. cbv zeta.
  destruct (get_game_archives rm) as [archives | |]; [| exact Hstart | exact Hstart].
  apply for_each_invariant; [| exact Hstart].
  intros st url Hst. unfold export_archive.
  destruct (get_games_from_archive rm url) as [games | |]; [| exact Hst | exact Hst].
  apply for_each_invariant; [| exact Hst]. exact Hstep.
Qed.

Lemma elem_existing (output_dir : gmap string string) (name : string) :
  name ∈ get_existing_files output_dir
  <-> name ∈ dom output_dir /\ is_pgn name = true.
Proof. unfold get_existing_files. rewrite elem_of_filter. tauto. Qed.

(** X20: files present before the run are neither changed nor removed,
    whether the run returns or raises; what it adds is a non-empty PGN
    under a name the analyser discovers and that holds no invalid
    character. *)
Theorem export_keeps_existing_files (rm : Remote) (output_dir : gmap string string)
  (name content : string) :
  let after := dir (state_of (export_games rm output_dir)) in
  (name ∈ dom output_dir -> after !! name = output_dir !! name)
  /\ (after !! name = Some content -> name ∉ dom output_dir ->
      content <> ""
      /\ name ∈ discover (dom after)
      /\ forall c, c ∈ invalid_chars -> contains c name = false).
Proof.
  cbv zeta.
  set (P := fun st : Progress =>
    (forall n, n ∈ dom output_dir -> dir st !! n = output_dir !! n)
    /\ (forall n v, dir st !! n = Some v -> n ∉ dom output_dir ->
        v <> "" /\ is_pgn n = true
        /\ forall c, c ∈ invalid_chars -> contains c n = false)).
  assert (HP : P (state_of (export_games rm output_dir))).
  { apply export_games_invariant.
    - intros st game [Hold Hnew]. unfold export_game. cbv zeta.
      destruct (default "" (pgn game)) as [| p0 p] eqn:Hp; [split; assumption |].
      cbn [is_empty].
      destruct (date_str rm (default 0 (end_time game))) as [date |]; [| split; assumption].
      destruct (decide (filename_of date game ∈ get_existing_files output_dir))
        as [Hin | Hnot]; [split; assumption |].
      cbn [state_of]. split; cbn [dir].
      + intros n Hn. rewrite lookup_insert_ne; [apply Hold, Hn |].
        intros <-. apply Hnot, elem_existing. split; [exact Hn | apply filename_is_pgn].
      + intros n v Hv Hn.
        destruct (decide (filename_of date game = n)) as [<- | Hne].
        * rewrite lookup_insert_eq in Hv. injection Hv as <-.
          split_and!; [discriminate | apply filename_is_pgn |].
          intros c Hc. unfold filename_of. cbv zeta. now apply sanitize_no_invalid.
        * rewrite lookup_insert_ne in Hv by exact Hne. now apply Hnew.
    - split; cbn [dir]; [reflexivity |].
      intros n v Hv Hn. exfalso. apply Hn, elem_of_dom. now exists v. }
  destruct HP as [Hold Hnew]. split; [apply Hold |].
  intros Hv Hn. destruct (Hnew name content Hv Hn) as (Hc & Hp & Hi).
  split_and!; [exact Hc | | exact Hi].
  apply discover_elem. split; [| exact Hp]. apply elem_of_dom. now exists content.
Qed.

End ExportRuns.

Section ExportAgain.
Import Exporter.

Lemma export_game_dom (rm : Remote) (existing_files : gset string)
  (st : Progress) (game : Game) :
  dom (dir st) ⊆ dom (dir (state_of (export_game rm existing_files st game))).
Proof.
  unfold export_game. cbv zeta.
  repeat case_match; cbn [state_of dir]; try reflexivity.
  apply dom_insert_subseteq.
Qed.

Lemma for_each_dom {A : Type} (body : Progress -> A -> Run) (xs : list A)
  (st : Progress) :
  (forall st x, dom (dir st) ⊆ dom (dir (state_of (body st x)))) ->
  dom (dir st) ⊆ dom (dir (state_of (for_each body xs st))).
Proof.
  intros Hstep.
  apply (for_each_invariant (fun st' => dom (dir st) ⊆ dom (dir st'))); [| reflexivity].
  intros st' x Hst'. etransitivity; [exact Hst' | apply Hstep].
Qed.

Lemma export_archive_dom (rm : Remote) (existing_files : gset string)
  (st : Progress) (url : string) :
  dom (dir st) ⊆ dom (dir (state_of (export_archive rm existing_files st url))).
Proof.
  unfold export_archive. case_match; cbn [state_of]; try reflexivity.
  apply for_each_dom. intros. apply export_game_dom.
Qed.

Lemma replays_refl_finished (st st2 : Progress) :
  replays st (Finished st) st2 (Finished st2).
Proof. exists st2. cbn [state_of]. split_and!; try reflexivity. lia. Qed.

Lemma replays_refl_raised (st st2 : Progress) :
  replays st (Raised st) st2 (Raised st2).
Proof. exists st2. cbn [state_of]. split_and!; try reflexivity. lia. Qed.

Lemma for_each_replays {A : Type} (names : gset string)
  (body body2 : Progress -> A -> Run) (xs : list A) :
  (forall st x, dom (dir st) ⊆ dom (dir (state_of (body st x)))) ->
  (forall st st2 x, covered names (state_of (body st x)) ->
     replays st (body st x) st2 (body2 st2 x)) ->
  forall st st2,
    covered names (state_of (for_each body xs st)) ->
    replays st (for_each body xs st) st2 (for_each body2 xs st2).
Proof.
  intros Hdom Hstep. induction xs as [| x xs IH]; intros st st2 Hcov.
  - apply replays_refl_finished.
  - cbn [for_each] in *.
    assert (Hx : covered names (state_of (body st x))).
    { destruct (body st x) as [st' | st'] eqn:Hb; [| exact Hcov].
      intros n Hn Hp. apply Hcov; [| exact Hp].
      cbn [state_of] in Hn. revert Hn. apply (for_each_dom body xs st' Hdom). }
    specialize (Hstep st st2 x Hx).
    destruct (body st x) as [st' | st'] eqn:Hb.
    + destruct Hstep as (s2 & -> & Hd & Ht & Hs). cbn [state_of] in Hs.
      destruct (IH st' s2 Hcov) as (s3 & -> & Hd3 & Ht3 & Hs3).
      exists s3. split_and!; [reflexivity | congruence | congruence | lia].
    + destruct Hstep as (s2 & -> & Hd & Ht & Hs). cbn [state_of] in *.
      exists s2. split_and!; [reflexivity | congruence | congruence |].
      cbn [state_of]. lia.
Qed.

Lemma export_game_replays (rm : Remote) (names1 names2 : gset string)
  (st st2 : Progress) (game : Game) :
  names1 ⊆ names2 ->
  covered names2 (state_of (export_game rm names1 st game)) ->
  replays st (export_game rm names1 st game) st2 (export_game rm names2 st2 game).
Proof.
  intros Hsub Hcov. unfold export_game in *. cbv zeta in *.
  destruct (is_empty (default "" (pgn game))); [apply replays_refl_finished |].
  destruct (date_str rm (default 0 (end_time game))) as [date |];
    [| apply replays_refl_raised].
  assert (Hin : filename_of date game ∈ names2).
  { destruct (decide (filename_of date game ∈ names1)) as [Hin | Hnot].
    - apply Hsub, Hin.
    - apply Hcov; [| apply filename_is_pgn].
      cbn [state_of dir]. apply elem_of_dom. rewrite lookup_insert_eq. eauto. }
  destruct (decide (filename_of date game ∈ names2)) as [_ | Hn]; [| contradiction].
  destruct (decide (filename_of date game ∈ names1)) as [Hin1 | Hnot1].
  - eexists. split; [reflexivity |]. cbn. split_and!; try reflexivity. lia.
  - eexists. split; [reflexivity |]. cbn. split_and!; try reflexivity. lia.
Qed.

Lemma export_archive_replays (rm : Remote) (names1 names2 : gset string)
  (st st2 : Progress) (url : string) :
  names1 ⊆ names2 ->
  covered names2 (state_of (export_archive rm names1 st url)) ->
  replays st (export_archive rm names1 st url) st2 (export_archive rm names2 st2 url).
Proof.
  intros Hsub Hcov. unfold export_archive in *.
  destruct (get_games_from_archive rm url) as [games | |];
    [| apply replays_refl_finished | apply replays_refl_raised].
  apply (for_each_replays names2); [| | exact Hcov].
  - intros. apply export_game_dom.
  - intros s s2 x Hx. now apply export_game_replays.
Qed.

Lemma export_games_dom (rm : Remote) (output_dir : gmap string string) :
  dom output_dir ⊆ dom (dir (state_of (export_games rm output_dir))).
Proof.
  unfold export_games. cbv zeta. case_match; cbn [state_of dir]; try reflexivity.
  apply (for_each_dom (export_archive rm (get_existing_files output_dir)) _
           {| dir := output_dir; total_games := 0; skipped_games := 0 |}).
  intros. apply export_archive_dom.
Qed.

Lemma export_games_replays (rm : Remote) (output_dir other_dir : gmap string string) :
  dom output_dir ⊆ dom other_dir ->
  covered (get_existing_files other_dir) (state_of (export_games rm output_dir)) ->
  replays {| dir := output_dir; total_games := 0; skipped_games := 0 |}
    (export_games rm output_dir)
    {| dir := other_dir; total_games := 0; skipped_games := 0 |}
    (export_games rm other_dir).
Proof.
  intros Hsub Hcov. unfold export_games in *. cbv zeta in *.
  destruct (get_game_archives rm) as [archives | |];
    [| apply replays_refl_finished | apply replays_refl_raised].
  apply (for_each_replays (get_existing_files other_dir)); [| | exact Hcov].
  - intros. apply export_archive_dom.
  - intros s s2 x Hx. apply export_archive_replays; [| exact Hx].
    intros n Hn. apply elem_existing in Hn as [Hn Hp].
    apply elem_existing. split; [apply Hsub, Hn | exact Hp].
Qed.

(** X21: exporting again with the same answers from the API writes
    nothing: the second run ends as the first did, leaves every file as
    it is, saves no game and skips each game the first run saved or
    skipped. *)
Theorem export_again_writes_nothing (rm : Remote) (output_dir : gmap string string) :
  let first := export_games rm output_dir in
  let second := export_games rm (dir (state_of first)) in
  dir (state_of second) = dir (state_of first)
  /\ total_games (state_of second) = 0
  /\ skipped_games (state_of second)
     = total_games (state_of first) + skipped_games (state_of first)
  /\ ((exists st, second = Finished st) <-> (exists st, first = Finished st)).
Proof.
  cbv zeta.
  destruct (export_games_replays rm output_dir
              (dir (state_of (export_games rm output_dir))))
    as (st2 & Hsecond & Hd & Ht & Hs).
  - apply export_games_dom.
  - intros n Hn Hp. apply elem_existing. split; assumption.
  - rewrite Hsecond. cbn [dir total_games skipped_games] in *.
    destruct (export_games rm output_dir) as [st1 | st1]; cbn [state_of] in *.
    + split_and!; [exact Hd | exact Ht | lia |]. split; intros _; eauto.
    + split_and!; [exact Hd | exact Ht | lia |].
      split; intros [st Hst]; discriminate.
Qed.

End ExportAgain.

Section ExportCounts.
Import Exporter.

Lemma existing_insert_size (output_dir : gmap string string) (name content : string) :
  (size (get_existing_files (<[name := content]> output_dir))
   <= S (size (get_existing_files output_dir)))%nat.
Proof.
  transitivity (size ({[name]} ∪ get_existing_files output_dir)).
  - apply subseteq_size. intros n Hn. apply elem_existing in Hn as [Hn Hp].
    apply dom_insert in Hn. apply elem_of_union in Hn as [Hn | Hn].
    + apply elem_of_union_l, Hn.
    + apply elem_of_union_r, elem_existing. split; assumption.
  - rewrite size_union_alt, size_singleton. apply le_n_S, subseteq_size.
    apply subseteq_difference_l. reflexivity.
Qed.

(** X22: the counters are never negative, and the number printed as total
    files, [total_games] plus the files found at the start, is an upper
    bound of the number of PGN files in the directory, which is at least
    what it was before. *)
Theorem reported_total_bounds_files (rm : Remote) (output_dir : gmap string string) :
  let st := state_of (export_games rm output_dir) in
  let before := Z.of_nat (size (get_existing_files output_dir)) in
  let after := Z.of_nat (size (get_existing_files (dir st))) in
  0 <= total_games st /\ 0 <= skipped_games st
  /\ before <= after <= total_games st + before.
Proof.
  cbv zeta. split_and!.
  - apply (export_games_invariant
             (fun st => 0 <= total_games st /\ 0 <= skipped_games st));
      [| cbn; lia].
    intros st game [Ht Hs]. unfold export_game. cbv zeta.
    repeat case_match; cbn; lia.
  - apply (export_games_invariant
             (fun st => 0 <= total_games st /\ 0 <= skipped_games st));
      [| cbn; lia].
    intros st game [Ht Hs]. unfold export_game. cbv zeta.
    repeat case_match; cbn; lia.
  - apply inj_le, subseteq_size. intros n Hn.
    apply elem_existing in Hn as [Hn Hp]. apply elem_existing.
    split; [| exact Hp]. revert Hn. apply export_games_dom.
  - apply (export_games_invariant
             (fun st => Z.of_nat (size (get_existing_files (dir st)))
                        <= total_games st
                           + Z.of_nat (size (get_existing_files output_dir))));
      [| cbn; lia].
    intros st game Hst. unfold export_game. cbv zeta.
    destruct (is_empty (default "" (pgn game))); [exact Hst |].
    destruct (date_str rm (default 0 (end_time game))) as [date |]; [| exact Hst].
    destruct (decide (filename_of date game ∈ get_existing_files output_dir));
      cbn [state_of dir total_games]; [exact Hst |].
    pose proof (existing_insert_size (dir st) (filename_of date game)
                  (default "" (pgn game))) as Hle.
    lia.
Qed.

Lemma export_game_saves (rm : Remote) (existing_files : gset string)
  (st : Progress) (game : Game) (content date : string) :
  pgn game = Some content -> content <> "" ->
  date_str rm (default 0 (end_time game)) = Some date ->
  ~ (filename_of date game ∈ existing_files) ->
  export_game rm existing_files st game
  = Finished {| dir := <[filename_of date game := content]> (dir st);
                total_games := total_games st + 1;
                skipped_games := skipped_games st |}.
Proof.
  intros Hp Hc Hd Hn. unfold export_game. cbv zeta. rewrite Hp, Hd. cbn [default].
  destruct content as [| c0 content]; [contradiction |]. cbn [is_empty].
  destruct (decide (filename_of date game ∈ existing_files)); [contradiction | reflexivity].
Qed.

(** X23: two games in a row that get the same file name, not present
    when the run started: both are counted as saved, one file is written,
    and it holds the second game only. *)
Theorem same_name_games_overwrite (rm : Remote) (existing_files : gset string)
  (st : Progress) (g1 g2 : Game) (p1 p2 d1 d2 : string) :
  pgn g1 = Some p1 -> p1 <> "" -> date_str rm (default 0 (end_time g1)) = Some d1 ->
  pgn g2 = Some p2 -> p2 <> "" -> date_str rm (default 0 (end_time g2)) = Some d2 ->
  filename_of d1 g1 = filename_of d2 g2 ->
  ~ (filename_of d1 g1 ∈ existing_files) ->
  for_each (export_game rm existing_files) [g1; g2] st
  = Finished {| dir := <[filename_of d2 g2 := p2]> (dir st);
                total_games := total_games st + 2;
                skipped_games := skipped_games st |}.
Proof.
  intros Hp1 Hc1 Hd1 Hp2 Hc2 Hd2 Hsame Hnew. cbn [for_each].
  rewrite (export_game_saves rm existing_files st g1 p1 d1) by assumption.
  rewrite (export_game_saves rm existing_files _ g2 p2 d2) by (rewrite <- ?Hsame; assumption).
  cbn [dir total_games skipped_games]. rewrite Hsame, insert_insert_eq.
  f_equal. f_equal. lia.
Qed.

Lemma same_name_games_overwrite_witness :
  for_each (export_game sample_remote ∅) [game_with "1. e4 e5"; game_with "1. d4 d5"]
    {| dir := ∅; total_games := 0; skipped_games := 0 |}
  = Finished {| dir := <[filename_of "1970-01-01_0000" (game_with "1. d4 d5") := "1. d4 d5"]> ∅;
                total_games := 0 + 2;
                skipped_games := 0 |}.
Proof.
  apply (same_name_games_overwrite sample_remote ∅
           {| dir := ∅; total_games := 0; skipped_games := 0 |}
           (game_with "1. e4 e5") (game_with "1. d4 d5") "1. e4 e5" "1. d4 d5"
           "1970-01-01_0000" "1970-01-01_0000");
    try reflexivity; try discriminate.
Defined.

Lemma space_valid (c : ascii) :
  isspace c = true -> ~ (c ∈ invalid_chars) /\ c <> "_"%char.
Proof.
  intros Hc. split.
  - intros Hin. apply existsb_invalid in Hin.
    destruct c as [[] [] [] [] [] [] [] []]; vm_compute in Hc, Hin; discriminate.
  - intros ->. vm_compute in Hc. discriminate.
Qed.

Lemma sanitize_other (text : string) (c : ascii) :
  c ∉ invalid_chars -> c <> "_"%char ->
  contains c (sanitize_filename text) = contains c text.
Proof.
  intros Hc Hu. induction text as [| x text IH]; [reflexivity |].
  rewrite sanitize_cons. cbn [contains]. rewrite IH. f_equal.
  apply clean_other; [| exact Hu].
  destruct (existsb (Ascii.eqb c) invalid_chars) eqn:He; [| reflexivity].
  now apply existsb_invalid in He.
Qed.

Lemma rstrip_no_space (s : string) : no_space s -> rstrip s = s.
Proof.
  induction s as [| c s IH]; intros Hs; [reflexivity |].
  cbn [rstrip]. rewrite IH.
  - destruct (isspace c) eqn:Hc; [| now rewrite andb_false_r].
    specialize (Hs c Hc). cbn [contains] in Hs. now rewrite Ascii.eqb_refl in Hs.
  - intros d Hd. specialize (Hs d Hd). cbn [contains] in Hs.
    now apply orb_false_elim in Hs.
Qed.

Lemma strip_no_space (s : string) : no_space s -> strip s = s.
Proof.
  intros Hs. unfold strip.
  assert (Hl : lstrip s = s).
  { destruct s as [| c s]; [reflexivity |]. cbn [lstrip].
    destruct (isspace c) eqn:Hc; [| reflexivity].
    specialize (Hs c Hc). cbn [contains] in Hs. now rewrite Ascii.eqb_refl in Hs. }
  rewrite Hl. now apply rstrip_no_space.
Qed.

Lemma no_space_app (a b : string) : no_space a -> no_space b -> no_space (a +:+ b).
Proof.
  intros Ha Hb c Hc. rewrite contains_app, (Ha c Hc), (Hb c Hc). reflexivity.
Qed.

Lemma no_space_literal (c : ascii) (s : string) :
  isspace c = false -> no_space s -> no_space (String c s).
Proof.
  intros Hc Hs d Hd. cbn [contains]. rewrite (Hs d Hd), orb_false_r.
  apply Ascii.eqb_neq. intros ->. congruence.
Qed.

Lemma no_space_nil : no_space "".
Proof. intros c _. reflexivity. Qed.

(** X24: with a date and user names free of whitespace, the exported file
    has a plain, non-empty name that matches [*.pgn]: the analyser finds
    the file and recognises its name again in the output file. *)
Theorem exported_name_is_resumable (date : string) (game : Game) :
  no_space date ->
  no_space (default "unknown" (white_username game)) ->
  no_space (default "unknown" (black_username game)) ->
  plain_name (filename_of date game) = true
  /\ is_pgn (filename_of date game) = true
  /\ filename_of date game <> "".
Proof.
  intros Hd Hw Hb.
  assert (Hname : no_space (filename_of date game)).
  { intros c Hc. unfold filename_of. cbv zeta.
    destruct (space_valid c Hc) as [Hv Hu]. rewrite sanitize_other by assumption.
    clear Hv Hu. revert c Hc.
    repeat first
      [ apply no_space_app
      | apply no_space_literal; [reflexivity |]
      | apply no_space_nil
      | assumption ]. }
  split_and!.
  - unfold plain_name. rewrite (strip_no_space _ Hname), String.eqb_refl.
    rewrite !Hname by reflexivity. reflexivity.
  - apply filename_is_pgn.
  - intros Hnil. pose proof (filename_is_pgn date game) as Hp.
    rewrite Hnil in Hp. discriminate.
Qed.

Lemma exported_name_is_resumable_witness :
  plain_name (filename_of "2024-01-01_1200" (game_with "1. e4 e5")) = true
  /\ is_pgn (filename_of "2024-01-01_1200" (game_with "1. e4 e5")) = true
  /\ filename_of "2024-01-01_1200" (game_with "1. e4 e5") <> "".
Proof.
  apply (exported_name_is_resumable "2024-01-01_1200" (game_with "1. e4 e5"));
    cbn [default game_with white_username black_username];
    repeat (apply no_space_literal; [ reflexivity | ]); apply no_space_nil.
Defined.

End ExportCounts.
